(** * Writer Context Tool: content synchronisation, caching and search

    A shallow embedding of [writer_tool.py]: the [Post] entity with its
    serialisation, the two feed adapters, the refresh engine
    [get_all_content] over the persistent caches, and the similarity search
    [find_similar_posts].

    Conventions of the embedding.
    - A Python [str] is a [string], one [ascii] per character.
    - A raised exception is the [None] of an [option] result; the functions
      that cannot raise are total.  An exception does not undo what was
      written before it: [posts_cache_after] is the cache a call of
      [get_all_content] leaves, whether the call returned or raised.
    - A [dict] used as a record of named fields is a [gmap string pyval];
      the caches are finite maps keyed by the very key strings the program
      builds.
    - numpy scalars are IEEE-754 floats, here Rocq's primitive binary64
      floats (the sentence-transformer vectors are float32; the two formats
      treat zero, infinity and NaN alike, which is all the proofs use). *)

From Stdlib Require Import ZArith List String Ascii Lia Floats Permutation Sorted.
From stdpp Require Import gmap strings list fin_maps.

Open Scope string_scope.
Open Scope list_scope.
Open Scope Z_scope.

(* ===================================================================== *)
(** ** Python runtime values and helpers *)
(* ===================================================================== *)

Module Py.

(** The values found in a serialised post: [None], a [str] or an [int]. *)
Inductive pyval :=
| PNone
| PStr (s : string)
| PInt (z : Z).

(** Truthiness, as [if v:] tests it. *)
Definition truthy (v : pyval) : bool :=
  match v with
  | PNone => false
  | PStr s => negb (String.eqb s "")
  | PInt z => negb (z =? 0)
  end.

(** [str.isspace] on one character (the whitespace of the Latin-1 range). *)
Definition is_space (c : ascii) : bool :=
  let n := N_of_ascii c in
  ((9 <=? n) && (n <=? 13) || (28 <=? n) && (n <=? 32)
   || (n =? 133) || (n =? 160))%N.

(** [len(s.split())]: the number of maximal runs of non-whitespace. *)
Fixpoint count_words_from (in_word : bool) (s : string) : nat :=
  match s with
  | EmptyString => 0%nat
  | String c s' =>
      if is_space c then count_words_from false s'
      else if in_word then count_words_from true s'
           else S (count_words_from true s')
  end.

Definition split_len (s : string) : Z := Z.of_nat (count_words_from false s).

(** [s[:n]] for a literal [n >= 0]. *)
Fixpoint str_take (n : N) (s : string) : string :=
  match s with
  | EmptyString => EmptyString
  | String c s' =>
      if (n =? 0)%N then EmptyString else String c (str_take (N.pred n) s')
  end.

(** [s.endswith(suf)]. *)
Fixpoint endswith (s suf : string) : bool :=
  String.eqb s suf
  || match s with
     | EmptyString => false
     | String _ s' => endswith s' suf
     end.

(** [c in s] for a one-character [c]. *)
Fixpoint contains (c : ascii) (s : string) : bool :=
  match s with
  | EmptyString => false
  | String a s' => Ascii.eqb a c || contains c s'
  end.

(** [s.split(sep)] for a one-character separator; never empty. *)
Fixpoint split (sep : ascii) (s : string) : list string :=
  match s with
  | EmptyString => [EmptyString]
  | String c s' =>
      if Ascii.eqb c sep then EmptyString :: split sep s'
      else match split sep s' with
           | h :: t => String c h :: t
           | [] => [String c EmptyString]
           end
  end.

(** [l[:n]] for any integer [n]: a negative bound counts from the end. *)
Definition slice_to {A} (n : Z) (l : list A) : list A :=
  if 0 <=? n then firstn (Z.to_nat n) l
  else firstn (Z.to_nat (Z.of_nat (length l) + n)) l.

(** An insertion-ordered [dict]: assigning to a present key replaces the
    value in place, assigning to a new key appends. *)
Fixpoint dict_set {V} (k : string) (v : V) (d : list (string * V))
  : list (string * V) :=
  match d with
  | [] => [(k, v)]
  | (k', v') :: d' =>
      if String.eqb k' k then (k, v) :: d' else (k', v') :: dict_set k v d'
  end.

Fixpoint dict_get {V} (k : string) (d : list (string * V)) : option V :=
  match d with
  | [] => None
  | (k', v') :: d' => if String.eqb k' k then Some v' else dict_get k d'
  end.

(** [f"{x}"] of a value that is a [str] or [None]. *)
Definition fmt (o : option string) : string :=
  match o with
  | Some s => s
  | None => "None"
  end.

End Py.
Import Py.

(* ===================================================================== *)
(** ** [list.sort(key=..., reverse=True)] *)
(* ===================================================================== *)

(** Python's sort is stable and compares keys with [<] only; with
    [reverse=True] it yields the keys in descending order and still keeps
    equal keys in their original order.  On keys that [<] orders (no NaN)
    that result is unique, and it is the one this insertion sort builds:
    an element is put after the elements that are strictly greater and
    before everything else. *)
Section SortDesc.
Context {A K : Type} (key : A → K) (lt : K → K → bool).

Fixpoint insert_desc (x : A) (l : list A) : list A :=
  match l with
  | [] => [x]
  | y :: l' =>
      if lt (key x) (key y) then y :: insert_desc x l' else x :: y :: l'
  end.

Fixpoint sort_desc (l : list A) : list A :=
  match l with
  | [] => []
  | x :: l' => insert_desc x (sort_desc l')
  end.


End SortDesc.

(* ===================================================================== *)
(** ** numpy on embedding vectors *)
(* ===================================================================== *)

Module Np.
Abbreviation embedding := (list float).

(** [np.dot(u, v)] on two vectors of one length. *)
Definition dot (u v : embedding) : float :=
  fold_left (fun acc xy => (acc + fst xy * snd xy)%float) (combine u v) 0%float.

(** [np.linalg.norm(v)]. *)
Definition norm (v : embedding) : float :=
  PrimFloat.sqrt (fold_left (fun acc x => (acc + x * x)%float) v 0%float).
End Np.
Import Np.

(* ===================================================================== *)
(** ** External collaborators *)
(* ===================================================================== *)

(** A [datetime]: its wall-clock reading in microseconds and, when the
    value is timezone-aware, its UTC offset. *)
Record datetime := {
  dt_wall : Z;
  dt_utcoffset : option Z
}.

(** The library calls the program makes and this development leaves
    opaque. *)
Class Runtime := {
  (** [hashlib.md5(s.encode()).hexdigest()] *)
  md5_hexdigest : string → string;
  (** [d.isoformat()] *)
  isoformat : datetime → string;
  (** [datetime.fromisoformat(s)], [None] for its [ValueError] *)
  fromisoformat : string → option datetime;
  (** [datetime.strptime(s, "%a, %d %b %Y %H:%M:%S %z")] *)
  strptime_tz : string → option datetime;
  (** [datetime.strptime(s, "%a, %d %b %Y %H:%M:%S")] *)
  strptime_naive : string → option datetime;
  (** [BeautifulSoup(html, 'html.parser').get_text(separator=' ', strip=True)] *)
  get_text : string → string;
  (** [SentenceTransformer('all-MiniLM-L6-v2').encode(text)] *)
  model_encode : string → embedding
}.

(* ===================================================================== *)
(** ** The [Post] class *)
(* ===================================================================== *)

Record Post := {
  post_title : string;
  post_url : string;
  post_content : string;
  post_date : option datetime;
  post_subtitle : string;
  post_word_count : Z;
  post_platform : string;
  (** the configured display name; [None] only when the configuration
      gives the source neither a name nor a url *)
  post_platform_name : option string;
  post_id : string
}.

Section PostClass.
Context `{Runtime}.

(** [Post.__init__] *)
Definition Post_init (title url content : string) (date : option datetime)
    (subtitle platform : string) (platform_name : option string) : Post :=
  {| post_title := title;
     post_url := url;
     post_content := content;
     post_date := date;
     post_subtitle := subtitle;
     post_word_count :=
       if String.eqb content "" then 0 else split_len content;
     post_platform := platform;
     post_platform_name := platform_name;
     post_id := md5_hexdigest (url +:+ ":" +:+ title) |}.

Definition opt_str (o : option string) : pyval :=
  match o with
  | Some s => PStr s
  | None => PNone
  end.

(** [Post.to_dict] *)
Definition to_dict (p : Post) : gmap string pyval :=
  list_to_map
    [ ("id", PStr (post_id p));
      ("title", PStr (post_title p));
      ("url", PStr (post_url p));
      ("content", PStr (post_content p));
      ("date", match post_date p with
               | Some d => PStr (isoformat d)
               | None => PNone
               end);
      ("subtitle", PStr (post_subtitle p));
      ("word_count", PInt (post_word_count p));
      ("platform", PStr (post_platform p));
      ("platform_name", opt_str (post_platform_name p)) ].

(** [data[k]] read as a [str]: [None] for the [KeyError], and for a value
    that the typed [Post] cannot hold. *)
Definition item_str (data : gmap string pyval) (k : string) : option string :=
  match data !! k with
  | Some (PStr s) => Some s
  | _ => None
  end.

(** [data.get(k, dflt)] read as a [str]. *)
Definition get_str (data : gmap string pyval) (k dflt : string)
  : option string :=
  match data !! k with
  | None => Some dflt
  | Some (PStr s) => Some s
  | Some _ => None
  end.

(** [Post.from_dict] *)
Definition from_dict (data : gmap string pyval) : option Post :=
  title ← item_str data "title";
  url ← item_str data "url";
  content ← item_str data "content";
  subtitle ← get_str data "subtitle" "";
  platform ← get_str data "platform" "";
  platform_name ← match data !! "platform_name" with
                  | None => Some (Some "")
                  | Some PNone => Some None
                  | Some (PStr s) => Some (Some s)
                  | Some (PInt _) => None
                  end;
  let post := Post_init title url content None subtitle platform platform_name in
  date ← match data !! "date" with
         | None => Some None
         | Some v =>
             if truthy v then
               match v with
               | PStr s => d ← fromisoformat s; Some (Some d)
               | _ => None
               end
             else Some None
         end;
  id ← match data !! "id" with
       | None => Some (post_id post)
       | Some (PStr s) => Some s
       | Some _ => None
       end;
  word_count ← match data !! "word_count" with
               | None => Some (post_word_count post)
               | Some (PInt z) => Some z
               | Some _ => None
               end;
  Some {| post_title := post_title post;
          post_url := post_url post;
          post_content := post_content post;
          post_date := date;
          post_subtitle := post_subtitle post;
          post_word_count := word_count;
          post_platform := post_platform post;
          post_platform_name := post_platform_name post;
          post_id := id |}.
End PostClass.

(* ===================================================================== *)
(** ** Configuration *)
(* ===================================================================== *)

(** One entry of ["platforms"]; a field is [None] when its key is absent. *)
Record platform := {
  pf_type : option string;
  pf_url : option string;
  pf_name : option string
}.

(** The document [load_config] returns; a field is [None] when its key is
    absent, and every reader supplies its own default. *)
Record config := {
  cfg_platforms : option (list platform);
  cfg_max_posts : option Z;
  cfg_cache_duration_minutes : option Z;
  cfg_similar_posts_count : option Z
}.

(** [timedelta(minutes=m)], in microseconds.  The constructor normalises
    its argument to days, seconds and microseconds and raises
    [OverflowError] ([None]) when the number of days, [m // 1440], is
    outside [-999999999, 999999999]. *)
Definition timedelta_minutes (m : Z) : option Z :=
  if (-999999999 <=? m / 1440) && (m / 1440 <=? 999999999)
  then Some (m * 60000000) else None.

(* ===================================================================== *)
(** ** Feed adapters *)
(* ===================================================================== *)

(** An entry of a parsed feed; a field is [None] when the entry lacks the
    attribute.  [fe_content] is [entry.content[0].value]. *)
Record feed_entry := {
  fe_title : option string;
  fe_link : option string;
  fe_content : option string;
  fe_summary : option string;
  fe_published : option string
}.

(** The network as one refresh sees it: the parsed feed behind a feed URL,
    or [None] when the request or [raise_for_status] raises. *)
Definition network := string → option (list feed_entry).

Section Adapters.
Context `{Runtime}.

(** The date of a Substack entry: with a timezone, else without, else
    none. *)
Definition substack_pub_date (e : feed_entry) : option datetime :=
  match fe_published e with
  | None => None
  | Some s =>
      match strptime_tz s with
      | Some d => Some d
      | None => strptime_naive s
      end
  end.

(** The body of the per-entry [try] of [fetch_substack_posts]; [None]
    when it raises, which skips the entry. *)
Definition substack_entry (platform_name : option string) (e : feed_entry)
  : option Post :=
  content ← match fe_content e with
            | Some c => Some c
            | None => fe_summary e
            end;
  let clean_content := get_text content in
  let pub_date := substack_pub_date e in
  title ← fe_title e;
  link ← fe_link e;
  Some (Post_init title link clean_content pub_date "" "substack" platform_name).

(** [fetch_substack_posts]: the outer [option] is the call itself (it
    never raises), a failed request yields the empty list. *)
Definition fetch_substack_posts (net : network) (url : option string)
    (max_posts : Z) (platform_name : option string) : option (list Post) :=
  match
    (u ← url;
     let u := if endswith u "/" then u else u +:+ "/" in
     net (u +:+ "feed"))
  with
  | None => Some []
  | Some entries =>
      Some (omap (substack_entry platform_name) (slice_to max_posts entries))
  end.

Definition medium_pub_date (e : feed_entry) : option datetime :=
  match fe_published e with
  | None => None
  | Some s => strptime_tz s
  end.

Definition medium_entry (platform_name : option string) (e : feed_entry)
  : option Post :=
  content ← fe_content e;
  let clean_content := get_text content in
  let pub_date := medium_pub_date e in
  title ← fe_title e;
  link ← fe_link e;
  Some (Post_init title link clean_content pub_date "" "medium" platform_name).

(** [url.split('@')[-1].split('/')[0] if '@' in url else url.split('/')[-1]] *)
Definition medium_username (url : string) : string :=
  if contains "@" url
  then hd "" (split "/" (List.last (split "@" url) ""))
  else List.last (split "/" url) "".

(** [fetch_medium_posts]: the user name is taken from the url before the
    [try], so a configuration without a url makes the call raise. *)
Definition fetch_medium_posts (net : network) (url : option string)
    (max_posts : Z) (platform_name : option string) : option (list Post) :=
  u ← url;
  let rss_url := "https://medium.com/feed/@" +:+ medium_username u in
  match net rss_url with
  | None => Some []
  | Some entries =>
      Some (omap (medium_entry platform_name) (slice_to max_posts entries))
  end.
End Adapters.

(* ===================================================================== *)
(** ** The persistent caches *)
(* ===================================================================== *)

(** [posts_cache], by the type of the value a key holds: fetch times under
    ["<type>:<url>:last_fetch_time"], member-id lists under
    ["<type>:<url>:post_ids"], serialised posts under ["post:<id>"]. *)
Record store := {
  fetch_times : gmap string Z;
  member_ids : gmap string (list string);
  post_records : gmap string (gmap string pyval)
}.

(** [embeddings_cache] *)
Abbreviation embeddings := (gmap string embedding).

(** The adapter calls a refresh makes, in order. *)
Inductive adapter_call :=
| CallSubstack (url : option string) (max_posts : Z) (name : option string)
| CallMedium (url : option string) (max_posts : Z) (name : option string).

Section Engine.
Context `{Runtime}.

(** [calculate_embedding] *)
Definition calculate_embedding (text : string) : embedding :=
  let max_length := 10000 in
  let text :=
    if max_length <? Z.of_nat (String.length text)
    then str_take (Z.to_N max_length) text else text in
  model_encode text.

(** The text a post is embedded from:
    [post.title + " " + post.content[:5000]]. *)
Definition embedding_text (p : Post) : string :=
  post_title p +:+ " " +:+ str_take 5000 (post_content p).

(** The loop that rebuilds a source's posts from its member ids; an id
    without a record, or with an empty one, is skipped. *)
Fixpoint load_posts (s : store) (ids : list string) : option (list Post) :=
  match ids with
  | [] => Some []
  | post_id :: ids' =>
      match post_records s !! ("post:" +:+ post_id) with
      | Some post_data =>
          if bool_decide (post_data = ∅) then load_posts s ids'
          else
            post ← from_dict post_data;
            rest ← load_posts s ids';
            Some (post :: rest)
      | None => load_posts s ids'
      end
  end.

(** [posts_cache.get(f"{cache_key}:post_ids", [])] followed by that
    loop. *)
Definition load_cached (s : store) (cache_key : string) : option (list Post) :=
  load_posts s (default [] (member_ids s !! (cache_key +:+ ":post_ids"))).

Definition cache_key_of (pf : platform) : string :=
  fmt (pf_type pf) +:+ ":" +:+ fmt (pf_url pf).

(** [platform.get("name", platform_url)] *)
Definition name_of (pf : platform) : option string :=
  match pf_name pf with
  | Some n => Some n
  | None => pf_url pf
  end.

(** [refresh or last_fetch_time is None
     or (now - last_fetch_time) > cache_duration] *)
Definition is_due (refresh : bool) (now cache_duration : Z)
    (last_fetch_time : option Z) : bool :=
  refresh
  || match last_fetch_time with
     | None => true
     | Some t => cache_duration <? now - t
     end.

(** [timedelta(minutes=config.get("cache_duration_minutes", 60 * 24 * 7))],
    the first statement of [get_all_content] after [load_config]; [None]
    when it raises. *)
Definition cache_duration_of (cfg : config) : option Z :=
  timedelta_minutes (default (60 * 24 * 7) (cfg_cache_duration_minutes cfg)).

(** The test of the first loop for one source. *)
Definition due (cache_duration : Z) (refresh : bool) (now : Z) (s : store)
    (pf : platform) : bool :=
  is_due refresh now cache_duration
    (fetch_times s !! (cache_key_of pf +:+ ":last_fetch_time")).

(** The first loop: a source that is due is queued, any other is served
    from the cache. *)
Fixpoint check_platforms (cache_duration : Z) (refresh : bool) (now : Z)
    (s : store) (pfs : list platform)
    (to_fetch : list platform) (results : gmap (option string) (list Post))
  : option (list platform * gmap (option string) (list Post)) :=
  match pfs with
  | [] => Some (to_fetch, results)
  | pf :: pfs' =>
      if due cache_duration refresh now s pf
      then check_platforms cache_duration refresh now s pfs' (to_fetch ++ [pf]) results
      else
        platform_posts ← load_cached s (cache_key_of pf);
        check_platforms cache_duration refresh now s pfs' to_fetch
          (<[name_of pf := platform_posts]> results)
  end.

(** What the second loop carries from one source to the next. *)
Record sync_state := {
  st_results : gmap (option string) (list Post);
  st_store : store;
  st_new_posts : list (string * Post);
  st_calls : list adapter_call
}.

(** The loop over the fetched posts: cache each one, collect its id, and
    mark it as new. *)
Fixpoint cache_posts (posts : list Post) (post_ids : list string)
    (records : gmap string (gmap string pyval)) (new_posts : list (string * Post))
  : list string * gmap string (gmap string pyval) * list (string * Post) :=
  match posts with
  | [] => (post_ids, records, new_posts)
  | post :: posts' =>
      cache_posts posts' (post_ids ++ [post_id post])
        (<["post:" +:+ post_id post := to_dict post]> records)
        (dict_set (post_id post) post new_posts)
  end.

(** The adapter call a platform type selects; [None] for a type that is
    neither ["substack"] nor ["medium"]. *)
Definition adapter_for (max_posts : Z) (pf : platform) : option adapter_call :=
  if bool_decide (pf_type pf = Some "substack") then
    Some (CallSubstack (pf_url pf) max_posts (name_of pf))
  else if bool_decide (pf_type pf = Some "medium") then
    Some (CallMedium (pf_url pf) max_posts (name_of pf))
  else None.

(** Making the call; [None] when it raises. *)
Definition run_adapter (net : network) (call : adapter_call)
  : option (list Post) :=
  match call with
  | CallSubstack url max_posts name => fetch_substack_posts net url max_posts name
  | CallMedium url max_posts name => fetch_medium_posts net url max_posts name
  end.

(** The store after a successful fetch of [posts] for [cache_key]. *)
Definition store_fetched (s : store) (cache_key : string) (now : Z)
    (post_ids : list string) (records : gmap string (gmap string pyval))
  : store :=
  {| fetch_times := <[cache_key +:+ ":last_fetch_time" := now]> (fetch_times s);
     member_ids := <[cache_key +:+ ":post_ids" := post_ids]> (member_ids s);
     post_records := records |}.

(** One round of the second loop; [None] when an exception leaves it. *)
Definition fetch_platform (cfg : config) (net : network) (now : Z)
    (st : sync_state) (pf : platform) : option sync_state :=
  let cache_key := cache_key_of pf in
  let max_posts := default 100 (cfg_max_posts cfg) in
  match adapter_for max_posts pf with
  | None => Some st                                   (* [continue] *)
  | Some call =>
      match run_adapter net call with
      | Some posts =>
          let '(post_ids, records, new_posts) :=
            cache_posts posts [] (post_records (st_store st)) (st_new_posts st) in
          Some {| st_results := <[name_of pf := posts]> (st_results st);
                  st_store := store_fetched (st_store st) cache_key now post_ids records;
                  st_new_posts := new_posts;
                  st_calls := st_calls st ++ [call] |}
      | None =>                                       (* [except] *)
          platform_posts ← load_cached (st_store st) cache_key;
          Some {| st_results :=
                    match platform_posts with
                    | [] => st_results st
                    | _ :: _ => <[name_of pf := platform_posts]> (st_results st)
                    end;
                  st_store := st_store st;
                  st_new_posts := st_new_posts st;
                  st_calls := st_calls st ++ [call] |}
      end
  end.

Fixpoint fetch_platforms (cfg : config) (net : network) (now : Z)
    (st : sync_state) (to_fetch : list platform) : option sync_state :=
  match to_fetch with
  | [] => Some st
  | pf :: rest =>
      st' ← fetch_platform cfg net now st pf;
      fetch_platforms cfg net now st' rest
  end.

(** The last loop: embed every new post whose id has no embedding yet. *)
Fixpoint embed_new (new_posts : list (string * Post)) (ec : embeddings)
  : embeddings :=
  match new_posts with
  | [] => ec
  | (post_id, post) :: rest =>
      match ec !! post_id with
      | Some _ => embed_new rest ec
      | None =>
          embed_new rest
            (<[post_id := calculate_embedding (embedding_text post)]> ec)
      end
  end.

(** What a call of [get_all_content] leaves behind: the mapping it
    returns, both caches, and the adapter calls it made. *)
Record outcome := {
  out_results : gmap (option string) (list Post);
  out_store : store;
  out_embeddings : embeddings;
  out_calls : list adapter_call
}.

(** [get_all_content]; [None] when the call raises.  [cfg] is what
    [load_config] returns, [now] the reading of [datetime.now()] in
    microseconds, [net] the network during the call, [s] and [ec] the two
    caches when the call starts.  The cache duration is computed before
    anything else and outside every [try], so a duration that [timedelta]
    refuses ends the call before the first loop.  Logging is left out, and
    so is the [post_sources] dictionary, which the loops fill and nothing
    reads. *)
Definition get_all_content (cfg : config) (net : network) (now : Z)
    (refresh : bool) (s : store) (ec : embeddings) : option outcome :=
  cache_duration ← cache_duration_of cfg;
  '(platforms_to_fetch, results) ←
    check_platforms cache_duration refresh now s (default [] (cfg_platforms cfg)) [] ∅;
  st ← fetch_platforms cfg net now
         {| st_results := results; st_store := s;
            st_new_posts := []; st_calls := [] |}
         platforms_to_fetch;
  Some {| out_results := st_results st;
          out_store := st_store st;
          out_embeddings := embed_new (st_new_posts st) ec;
          out_calls := st_calls st |}.

(** [posts_cache] as a run of the second loop leaves it, whether the loop
    comes to its end or an exception leaves it.  The only exception that
    leaves a round is raised by [Post.from_dict] in the [except] branch,
    which is entered because the adapter raised, before the first
    assignment of the round: the round that raises has written nothing,
    and what the rounds before it wrote stays written. *)
Fixpoint fetch_platforms_store (cfg : config) (net : network) (now : Z)
    (st : sync_state) (to_fetch : list platform) : store :=
  match to_fetch with
  | [] => st_store st
  | pf :: rest =>
      match fetch_platform cfg net now st pf with
      | Some st' => fetch_platforms_store cfg net now st' rest
      | None => st_store st
      end
  end.

(** [posts_cache] after a call of [get_all_content] that started with
    [s], whether the call returned or raised: neither the computation of
    the cache duration nor the first loop writes to the cache. *)
Definition posts_cache_after (cfg : config) (net : network) (now : Z)
    (refresh : bool) (s : store) : store :=
  match cache_duration_of cfg with
  | None => s
  | Some cache_duration =>
      match check_platforms cache_duration refresh now s
              (default [] (cfg_platforms cfg)) [] ∅ with
      | None => s
      | Some (platforms_to_fetch, results) =>
          fetch_platforms_store cfg net now
            {| st_results := results; st_store := s;
               st_new_posts := []; st_calls := [] |}
            platforms_to_fetch
      end
  end.

(* ------------------------------------------------------------------- *)
(** *** Search *)
(* ------------------------------------------------------------------- *)

(** The score of line 266, with the [float(...)] around it. *)
Definition similarity (query_embedding e : embedding) : float :=
  (dot query_embedding e / (norm query_embedding * norm e))%float.

(** The scoring loop: the embedding of a post is taken from the cache,
    and computed and cached when it is not there. *)
Fixpoint score_posts (query_embedding : embedding) (all_posts : list Post)
    (ec : embeddings) : list (Post * float) * embeddings :=
  match all_posts with
  | [] => ([], ec)
  | post :: rest =>
      let '(e, ec1) :=
        match ec !! post_id post with
        | Some cached => (cached, ec)
        | None =>
            let e := calculate_embedding (embedding_text post) in
            (e, <[post_id post := e]> ec)
        end in
      let '(results, ec2) := score_posts query_embedding rest ec1 in
      ((post, similarity query_embedding e) :: results, ec2)
  end.

(** [top_n = custom_top_n if custom_top_n > 0 else top_n] *)
Definition effective_top_n (cfg : config) (top_n : Z) : Z :=
  let custom_top_n := default 10 (cfg_similar_posts_count cfg) in
  if 0 <? custom_top_n then custom_top_n else top_n.

(** [find_similar_posts]: the ranked list and the embedding cache it
    leaves.  [cfg] is what its own [load_config] call returns. *)
Definition find_similar_posts (cfg : config) (query : string)
    (all_posts : list Post) (top_n : Z) (ec : embeddings)
  : list (Post * float) * embeddings :=
  match all_posts with
  | [] => ([], ec)
  | _ :: _ =>
      let top_n := effective_top_n cfg top_n in
      let query_embedding := calculate_embedding query in
      let '(results, ec') := score_posts query_embedding all_posts ec in
      (slice_to top_n (sort_desc snd PrimFloat.ltb results), ec')
  end.

(** The search of [search_writing]: the configured count is passed as
    [top_n]. *)
Definition search_writing_posts (cfg : config) (query : string)
    (all_posts : list Post) (ec : embeddings)
  : list (Post * float) * embeddings :=
  find_similar_posts cfg query all_posts
    (default 10 (cfg_similar_posts_count cfg)) ec.
End Engine.

(* ===================================================================== *)
(** ** A small runtime to evaluate the model on *)
(* ===================================================================== *)

(** Stand-ins for the library calls, simple enough to run inside Rocq: the
    digest is the identity, a date is written as its two numbers in
    binary, the text of a document is the document, and the embedding of
    a text is made of its length and its word count. *)
Module Toy.
(** A positive number, lowest bit first, closed by a dot. *)
Fixpoint show_pos (p : positive) (k : string) : string :=
  match p with
  | xH => String "." k
  | xO p' => String "0" (show_pos p' k)
  | xI p' => String "1" (show_pos p' k)
  end.

Fixpoint read_pos (s : string) : option (positive * string) :=
  match s with
  | String "." k => Some (xH, k)
  | String "0" s' => '(p, k) ← read_pos s'; Some (xO p, k)
  | String "1" s' => '(p, k) ← read_pos s'; Some (xI p, k)
  | _ => None
  end.

Definition show_Z (z : Z) (k : string) : string :=
  match z with
  | Z0 => String "z" k
  | Zpos p => String "p" (show_pos p k)
  | Zneg p => String "n" (show_pos p k)
  end.

Definition read_Z (s : string) : option (Z * string) :=
  match s with
  | String "z" k => Some (Z0, k)
  | String "p" s' => '(p, k) ← read_pos s'; Some (Zpos p, k)
  | String "n" s' => '(p, k) ← read_pos s'; Some (Zneg p, k)
  | _ => None
  end.

Definition show_date (d : datetime) : string :=
  show_Z (dt_wall d)
    match dt_utcoffset d with
    | Some o => String "+" (show_Z o "")
    | None => ""
    end.

Definition read_date (s : string) : option datetime :=
  '(wall, k) ← read_Z s;
  match k with
  | EmptyString => Some {| dt_wall := wall; dt_utcoffset := None |}
  | String "+" k' =>
      '(off, k'') ← read_Z k';
      match k'' with
      | EmptyString => Some {| dt_wall := wall; dt_utcoffset := Some off |}
      | _ => None
      end
  | _ => None
  end.

Definition float_of_nat (n : nat) : float :=
  PrimFloat.of_uint63 (Uint63.of_Z (Z.of_nat n)).

Definition encode (s : string) : embedding :=
  [float_of_nat (String.length s); float_of_nat (count_words_from false s)].

#[export] Instance runtime : Runtime := {|
  md5_hexdigest := fun s => s;
  isoformat := show_date;
  fromisoformat := read_date;
  strptime_tz := fun s =>
    d ← read_date s;
    match dt_utcoffset d with Some _ => Some d | None => None end;
  strptime_naive := fun s =>
    d ← read_date s;
    match dt_utcoffset d with Some _ => None | None => Some d end;
  get_text := fun s => s;
  model_encode := encode
|}.
End Toy.

(* ===================================================================== *)
(** ** Assumptions on the libraries and on the stored data *)
(* ===================================================================== *)

(** What the program relies on from [datetime]: [isoformat] never yields
    the empty text, and [fromisoformat] reads back what [isoformat] wrote. *)
Class RuntimeOk `{Runtime} : Prop := {
  isoformat_nonempty : ∀ d, isoformat d ≠ "";
  fromisoformat_isoformat : ∀ d, fromisoformat (isoformat d) = Some d
}.

(** Every record of the store is empty or can be read back as a post. *)
Definition store_ok `{Runtime} (s : store) : Prop :=
  map_Forall (λ _ d, d = ∅ ∨ is_Some (from_dict d)) (post_records s).

(** Two posts that agree on what their embedding is computed from. *)
Definition same_embedding_input (p1 p2 : Post) : Prop :=
  post_title p1 = post_title p2
  ∧ str_take 5000 (post_content p1) = str_take 5000 (post_content p2).

(** The part of the first loop that serves the sources that are not due. *)
Fixpoint serve_cached `{Runtime} (s : store) (pfs : list platform)
    (results : gmap (option string) (list Post))
  : option (gmap (option string) (list Post)) :=
  match pfs with
  | [] => Some results
  | pf :: pfs' =>
      platform_posts ← load_cached s (cache_key_of pf);
      serve_cached s pfs' (<[name_of pf := platform_posts]> results)
  end.

(** The posts a refresh obtains for a source: [None] when the source has
    no adapter or its adapter raises. *)
Definition fetched_posts `{Runtime} (cfg : config) (net : network) (pf : platform)
  : option (list Post) :=
  call ← adapter_for (default 100 (cfg_max_posts cfg)) pf;
  run_adapter net call.

(** A sequence of assignments [m[k] = v], applied in order. *)
Definition apply_writes {V} (m : gmap string V) (ws : list (string * V))
  : gmap string V :=
  foldl (λ m kv, <[kv.1 := kv.2]> m) m ws.

(** The assignments to ["post:<id>"] keys that fetching the given sources
    makes. *)
Definition record_writes `{Runtime} (cfg : config) (net : network)
    (pfs : list platform) : list (string * gmap string pyval) :=
  flat_map (λ pf, match fetched_posts cfg net pf with
                  | Some posts => map (λ p, ("post:" +:+ post_id p, to_dict p)) posts
                  | None => []
                  end) pfs.

(** The assignments to ["<type>:<url>:post_ids"] keys. *)
Definition id_writes `{Runtime} (cfg : config) (net : network)
    (pfs : list platform) : list (string * list string) :=
  flat_map (λ pf, match fetched_posts cfg net pf with
                  | Some posts => [(cache_key_of pf +:+ ":post_ids", map post_id posts)]
                  | None => []
                  end) pfs.

(** The posts marked as new, in the order they are marked. *)
Definition marked_posts `{Runtime} (cfg : config) (net : network)
    (pfs : list platform) : list Post :=
  flat_map (λ pf, default [] (fetched_posts cfg net pf)) pfs.

Definition mark_new (new_posts : list (string * Post)) (posts : list Post)
  : list (string * Post) :=
  foldl (λ d p, dict_set (post_id p) p d) new_posts posts.

(** The sources whose rounds of the second loop are completed before an
    exception, if any, leaves the loop. *)
Fixpoint completed_rounds `{Runtime} (cfg : config) (net : network) (now : Z)
    (st : sync_state) (to_fetch : list platform) : list platform :=
  match to_fetch with
  | [] => []
  | pf :: rest =>
      match fetch_platform cfg net now st pf with
      | Some st' => pf :: completed_rounds cfg net now st' rest
      | None => []
      end
  end.

(** The ids whose records the rebuilding loop gets past: a record is
    absent, empty, or can be read back as a post. *)
Definition readable_ids `{Runtime} (s : store) (ids : list string) : Prop :=
  Forall (λ i, match post_records s !! ("post:" +:+ i) with
               | Some d => d = ∅ ∨ is_Some (from_dict d)
               | None => True
               end) ids.

(** [b] is [a] after some completed rounds of the second loop: a record
    of [b] is the one [a] has or was written by [to_dict], and a member
    list of [b] is the one [a] has or names records written by
    [to_dict]. *)
Definition written_over `{Runtime} (a b : store) : Prop :=
  (∀ k, post_records b !! k = post_records a !! k
        ∨ ∃ p, post_records b !! k = Some (to_dict p))
  ∧ (∀ k, member_ids b !! k = member_ids a !! k
          ∨ ∃ ids, member_ids b !! k = Some ids
                   ∧ Forall (λ i, ∃ p, post_records b !! ("post:" +:+ i)
                                       = Some (to_dict p)) ids).

(** Sample data for the evaluated examples. *)
Module Sample.
Import Toy.

Fixpoint repeat_char (c : ascii) (n : nat) (k : string) : string :=
  match n with
  | O => k
  | S n' => String c (repeat_char c n' k)
  end.

Definition d0 : datetime := {| dt_wall := 1700000000; dt_utcoffset := Some 3600 |}.

Definition p0 : Post :=
  Post_init "Hello" "https://a.substack.com/p/hello" "some words here"
    (Some d0) "" "substack" (Some "A").

(** Two versions of one article whose bodies differ at position 5000. *)
Definition long_a : Post :=
  Post_init "Long" "https://a.substack.com/p/long"
    (repeat_char "a" 5000 "x") None "" "substack" (Some "A").
Definition long_b : Post :=
  Post_init "Long" "https://a.substack.com/p/long"
    (repeat_char "a" 5000 "y and more") None "" "substack" (Some "A").

Definition p1 : Post :=
  Post_init "One" "https://a.substack.com/p/1" "alpha beta" None "" "substack" (Some "A").
Definition p2 : Post :=
  Post_init "Two" "https://a.substack.com/p/2" "alpha beta gamma delta" None ""
    "substack" (Some "A").
Definition p3 : Post :=
  Post_init "Six" "https://a.substack.com/p/3" "alpha beta" None "" "substack" (Some "A").

Definition no_config : config :=
  {| cfg_platforms := None; cfg_max_posts := None;
     cfg_cache_duration_minutes := None; cfg_similar_posts_count := None |}.
End Sample.

(** The configuration with another list of sources. *)
Definition with_platforms (cfg : config) (pfs : list platform) : config :=
  {| cfg_platforms := Some pfs;
     cfg_max_posts := cfg_max_posts cfg;
     cfg_cache_duration_minutes := cfg_cache_duration_minutes cfg;
     cfg_similar_posts_count := cfg_similar_posts_count cfg |}.

(** Sample sources, stores and networks. *)
Module Scenario.
Import Toy.

Definition substack_a : platform :=
  {| pf_type := Some "substack"; pf_url := Some "https://a.substack.com";
     pf_name := Some "A" |}.

Definition medium_b : platform :=
  {| pf_type := Some "medium"; pf_url := Some "https://medium.com/@bob";
     pf_name := Some "B" |}.

Definition rss_x : platform :=
  {| pf_type := Some "rss"; pf_url := Some "https://x.example/feed";
     pf_name := Some "X" |}.

(** A Medium source that carries the display name of [substack_a]. *)
Definition medium_a : platform :=
  {| pf_type := Some "medium"; pf_url := Some "https://medium.com/@bob";
     pf_name := Some "A" |}.

(** A Medium source without a url: its adapter raises. *)
Definition medium_none : platform :=
  {| pf_type := Some "medium"; pf_url := None; pf_name := Some "M" |}.

Definition cfg_of (pfs : list platform) : config :=
  {| cfg_platforms := Some pfs; cfg_max_posts := None;
     cfg_cache_duration_minutes := None; cfg_similar_posts_count := None |}.

(** A cache duration of one thousand million days, one day more than
    [timedelta] holds. *)
Definition cfg_long (pfs : list platform) : config :=
  {| cfg_platforms := Some pfs; cfg_max_posts := None;
     cfg_cache_duration_minutes := Some 1440000000000;
     cfg_similar_posts_count := None |}.

(** A store that holds one post for a source, fetched at time 1000. *)
Definition store_with (pf : platform) (fetched_at : option Z) : store :=
  {| fetch_times :=
       match fetched_at with
       | Some t => {[ cache_key_of pf +:+ ":last_fetch_time" := t ]}
       | None => ∅
       end;
     member_ids := {[ cache_key_of pf +:+ ":post_ids" := [post_id Sample.p0] ]};
     post_records := {[ "post:" +:+ post_id Sample.p0 := to_dict Sample.p0 ]} |}.

(** A store that names, for [medium_none], a record without a title,
    which [Post.from_dict] cannot read. *)
Definition store_torn : store :=
  {| fetch_times := ∅;
     member_ids := {[ cache_key_of medium_none +:+ ":post_ids" := ["x"] ]};
     post_records := {[ "post:x" := {[ "url" := PStr "https://medium.com/x" ]} ]} |}.

(** No request succeeds. *)
Definition net_down : network := λ _, None.

Definition entry (title link body : string) : feed_entry :=
  {| fe_title := Some title; fe_link := Some link; fe_content := Some body;
     fe_summary := None; fe_published := None |}.

(** Both feeds answer, with two entries and with one. *)
Definition net_up : network := λ url,
  if String.eqb url "https://a.substack.com/feed" then
    Some [entry "One" "https://a.substack.com/p/1" "alpha beta";
          entry "Two" "https://a.substack.com/p/2" "alpha beta gamma delta"]
  else if String.eqb url "https://medium.com/feed/@bob" then
    Some [entry "Bob" "https://medium.com/@bob/1" "gamma"]
  else None.

(** One week is 604800000000 microseconds. *)
Definition t0 : Z := 1000.
Definition week : Z := 604800000000.
End Scenario.

(* ===================================================================== *)
(** * Properties *)
(* ===================================================================== *)

(** ** Identity of a post *)

(** C6. The id given to a post at construction is the digest of
    [url + ":" + title]; it is the same whenever it is computed for the
    same url and title, whatever the content, date, subtitle, platform and
    platform name are. *)
Theorem post_id_depends_on_url_and_title `{Runtime}
    (title url : string) (content content' : string)
    (date date' : option datetime) (subtitle subtitle' : string)
    (platform platform' : string) (name name' : option string) :
  post_id (Post_init title url content date subtitle platform name)
    = md5_hexdigest (url +:+ ":" +:+ title)
  ∧ post_id (Post_init title url content' date' subtitle' platform' name')
    = post_id (Post_init title url content date subtitle platform name).
Proof. split; reflexivity. Qed.

(** ** Serialisation *)

Section Serialisation.
Context `{Runtime}.

Lemma truthy_PStr s : s ≠ "" → truthy (PStr s) = true.
Proof.
  intros Hs. simpl. destruct (String.eqb_spec s ""); [contradiction | reflexivity].
Qed.

Lemma from_dict_to_dict_date (p : Post) d :
  post_date p = Some d → isoformat d ≠ "" →
  from_dict (to_dict p)
  = date ← fromisoformat (isoformat d);
    Some {| post_title := post_title p; post_url := post_url p;
            post_content := post_content p; post_date := Some date;
            post_subtitle := post_subtitle p;
            post_word_count := post_word_count p;
            post_platform := post_platform p;
            post_platform_name := post_platform_name p;
            post_id := post_id p |}.
Proof.
  intros Hd Hne. destruct p as [t u c dt sub wc pl pn i]. simpl in Hd. subst dt.
  unfold from_dict, item_str, get_str.
  change (to_dict _ !! "title") with (Some (PStr t)).
  change (to_dict _ !! "url") with (Some (PStr u)).
  change (to_dict _ !! "content") with (Some (PStr c)).
  change (to_dict _ !! "subtitle") with (Some (PStr sub)).
  change (to_dict _ !! "platform") with (Some (PStr pl)).
  change (to_dict _ !! "platform_name") with (Some (opt_str pn)).
  change (to_dict _ !! "date") with (Some (PStr (isoformat d))).
  change (to_dict _ !! "id") with (Some (PStr i)).
  change (to_dict _ !! "word_count") with (Some (PInt wc)).
  cbv beta iota. rewrite (truthy_PStr _ Hne).
  destruct pn; simpl; destruct (fromisoformat (isoformat d)); reflexivity.
Qed.

Lemma from_dict_to_dict_no_date (p : Post) :
  post_date p = None → from_dict (to_dict p) = Some p.
Proof.
  intros Hd. destruct p as [t u c dt sub wc pl pn i]. simpl in Hd. subst dt.
  unfold from_dict, item_str, get_str.
  change (to_dict _ !! "title") with (Some (PStr t)).
  change (to_dict _ !! "url") with (Some (PStr u)).
  change (to_dict _ !! "content") with (Some (PStr c)).
  change (to_dict _ !! "subtitle") with (Some (PStr sub)).
  change (to_dict _ !! "platform") with (Some (PStr pl)).
  change (to_dict _ !! "platform_name") with (Some (opt_str pn)).
  change (to_dict _ !! "date") with (Some PNone).
  change (to_dict _ !! "id") with (Some (PStr i)).
  change (to_dict _ !! "word_count") with (Some (PInt wc)).
  destruct pn; reflexivity.
Qed.

(** A serialised post is never the empty dictionary. *)
Lemma to_dict_nonempty (p : Post) : to_dict p ≠ ∅.
Proof.
  intros Heq. apply (f_equal (λ m : gmap string pyval, m !! "id")) in Heq.
  discriminate Heq.
Qed.

(** C10. Reading back the dictionary of a post gives the post itself,
    field by field: id, title, url, content, date (absent, or the stored
    date with its timezone), subtitle, word count, platform and platform
    name.  For a post that carries a date this uses that [fromisoformat]
    reads back the non-empty text [isoformat] wrote for that date. *)
Theorem from_dict_to_dict (p : Post) :
  (∀ d, post_date p = Some d →
        isoformat d ≠ "" ∧ fromisoformat (isoformat d) = Some d) →
  from_dict (to_dict p) = Some p.
Proof.
  intros Hdate. destruct (post_date p) as [d|] eqn:Hd.
  - destruct (Hdate d eq_refl) as [Hne Hrt].
    rewrite (from_dict_to_dict_date p d Hd Hne), Hrt. simpl.
    destruct p; simpl in *; subst; reflexivity.
  - apply from_dict_to_dict_no_date, Hd.
Qed.
End Serialisation.

(** The toy date codec reads back what it writes. *)
Lemma toy_read_show_pos p k : Toy.read_pos (Toy.show_pos p k) = Some (p, k).
Proof. induction p as [p IH|p IH|]; simpl; rewrite ?IH; reflexivity. Qed.

Lemma toy_read_show_Z z k : Toy.read_Z (Toy.show_Z z k) = Some (z, k).
Proof. destruct z; simpl; rewrite ?toy_read_show_pos; reflexivity. Qed.

Lemma toy_read_show_date d : Toy.read_date (Toy.show_date d) = Some d.
Proof.
  destruct d as [w [o|]]; unfold Toy.read_date, Toy.show_date; simpl;
    rewrite toy_read_show_Z; simpl; rewrite ?toy_read_show_Z; reflexivity.
Qed.

Lemma toy_show_date_nonempty d : Toy.show_date d ≠ "".
Proof. destruct d as [[|w|w] o]; discriminate. Qed.

#[export] Instance toy_runtime_ok : @RuntimeOk Toy.runtime.
Proof.
  split; [exact toy_show_date_nonempty | exact toy_read_show_date].
Qed.

Lemma from_dict_to_dict_witness :
  @from_dict Toy.runtime (@to_dict Toy.runtime Sample.p0) = Some Sample.p0.
Proof.
  apply (@from_dict_to_dict Toy.runtime Sample.p0).
  intros d _. split; [apply toy_show_date_nonempty | apply toy_read_show_date].
Defined.

(** ** Embeddings *)

Section Embeddings.
Context `{Runtime}.

Lemma str_take_all (s : string) (n : N) :
  (N.of_nat (String.length s) <= n)%N → str_take n s = s.
Proof.
  revert n. induction s as [|c s IH]; intros n Hn; simpl in *; [reflexivity|].
  destruct (N.eqb_spec n 0) as [->|Hn0]; [lia|].
  f_equal. apply IH. lia.
Qed.

Lemma str_take_app (s t : string) :
  str_take (N.of_nat (String.length s)) (s +:+ t) = s.
Proof.
  induction s as [|c s IH]; simpl String.length.
  - simpl. destruct t; reflexivity.
  - change (String c s +:+ t) with (String c (s +:+ t)).
    cbn [str_take]. destruct (N.eqb_spec (N.of_nat (S (String.length s))) 0); [lia|].
    replace (N.pred (N.of_nat (S (String.length s))))
      with (N.of_nat (String.length s)) by lia.
    rewrite IH. reflexivity.
Qed.

(** The text handed to the model is the first 10000 characters. *)
Lemma calculate_embedding_eq (text : string) :
  calculate_embedding text = model_encode (str_take 10000 text).
Proof.
  unfold calculate_embedding. cbv zeta.
  destruct (Z.ltb_spec 10000 (Z.of_nat (String.length text))) as [Hlt|Hge].
  - reflexivity.
  - rewrite str_take_all by lia. reflexivity.
Qed.

Lemma same_embedding_input_text p1 p2 :
  same_embedding_input p1 p2 → embedding_text p1 = embedding_text p2.
Proof. intros [Ht Hc]. unfold embedding_text. rewrite Ht, Hc. reflexivity. Qed.

(** Contents that share their first 5000 characters embed alike. *)
Lemma same_prefix_same_input p1 p2 (pre t1 t2 : string) :
  post_title p1 = post_title p2 →
  String.length pre = 5000%nat →
  post_content p1 = pre +:+ t1 → post_content p2 = pre +:+ t2 →
  same_embedding_input p1 p2.
Proof.
  intros Ht Hlen H1 H2. split; [exact Ht|]. rewrite H1, H2.
  replace 5000%N with (N.of_nat (String.length pre)) by (rewrite Hlen; reflexivity).
  rewrite !str_take_app. reflexivity.
Qed.

Lemma embed_new_agree (new1 new2 : list (string * Post)) (ec : embeddings) :
  Forall2 (λ a b, a.1 = b.1 ∧ same_embedding_input a.2 b.2) new1 new2 →
  embed_new new1 ec = embed_new new2 ec.
Proof.
  intros Hrel. revert ec.
  induction Hrel as [|[i1 p1] [i2 p2] l1 l2 [Hid Hin] _ IH]; intros ec.
  - reflexivity.
  - simpl in *. subst i2. rewrite (same_embedding_input_text _ _ Hin).
    destruct (ec !! i1); apply IH.
Qed.

Lemma score_posts_agree (q : embedding) (posts1 posts2 : list Post)
    (ec : embeddings) :
  Forall2 (λ a b, post_id a = post_id b ∧ same_embedding_input a b) posts1 posts2 →
  (score_posts q posts1 ec).2 = (score_posts q posts2 ec).2
  ∧ map snd (score_posts q posts1 ec).1 = map snd (score_posts q posts2 ec).1.
Proof.
  intros Hrel. revert ec.
  induction Hrel as [|p1 p2 l1 l2 [Hid Hin] _ IH]; intros ec.
  - split; reflexivity.
  - simpl. rewrite <- Hid, (same_embedding_input_text _ _ Hin).
    destruct (ec !! post_id p1) as [e|].
    + specialize (IH ec).
      destruct (score_posts q l1 ec), (score_posts q l2 ec).
      simpl in *. destruct IH as [-> ->]. split; reflexivity.
    + specialize (IH (<[post_id p1:=calculate_embedding (embedding_text p2)]> ec)).
      destruct (score_posts q l1 _), (score_posts q l2 _).
      simpl in *. destruct IH as [-> ->]. split; reflexivity.
Qed.

(** Embedding new posts never touches an entry that is already there. *)
Lemma embed_new_keeps (new_posts : list (string * Post)) (ec : embeddings) k e :
  ec !! k = Some e → embed_new new_posts ec !! k = Some e.
Proof.
  revert ec. induction new_posts as [|[i p] l IH]; intros ec Hk; simpl; [exact Hk|].
  destruct (ec !! i) eqn:Hi; [apply IH, Hk|].
  apply IH. rewrite lookup_insert_ne; [exact Hk|]. intros ->. congruence.
Qed.

Lemma embed_new_fresh (new_posts : list (string * Post)) (ec : embeddings) k p :
  ec !! k = None → dict_get k new_posts = Some p →
  embed_new new_posts ec !! k = Some (calculate_embedding (embedding_text p)).
Proof.
  revert ec. induction new_posts as [|[i p'] l IH]; intros ec Hk Hget; simpl in *;
    [discriminate|].
  destruct (String.eqb_spec i k) as [->|Hne].
  - injection Hget as ->. rewrite Hk. apply embed_new_keeps, lookup_insert_eq.
  - destruct (ec !! i); [apply IH; assumption|].
    apply IH; [|exact Hget]. rewrite lookup_insert_ne; assumption.
Qed.

(** C3. What the caches hold for a post is computed from its title and
    the first 5000 characters of its content only.  Take two batches of
    new posts, and two corpora, that agree entry by entry on id, title
    and content[:5000]: embedding the new posts leaves the same embedding
    cache for both batches, a search leaves the same cache and assigns
    the same scores for both corpora, and the embedding stored for a new
    id is the model's output on (at most 10000 characters of)
    [title + " " + content[:5000]]. *)
Theorem embedding_depends_on_title_and_prefix
    (new1 new2 : list (string * Post)) (posts1 posts2 : list Post)
    (q : embedding) (ec : embeddings) :
  Forall2 (λ a b, a.1 = b.1 ∧ same_embedding_input a.2 b.2) new1 new2 →
  Forall2 (λ a b, post_id a = post_id b ∧ same_embedding_input a b) posts1 posts2 →
  embed_new new1 ec = embed_new new2 ec
  ∧ (score_posts q posts1 ec).2 = (score_posts q posts2 ec).2
  ∧ map snd (score_posts q posts1 ec).1 = map snd (score_posts q posts2 ec).1
  ∧ ∀ id p, ec !! id = None → dict_get id new1 = Some p →
      embed_new new1 ec !! id
      = Some (model_encode
                (str_take 10000
                   (post_title p +:+ " " +:+ str_take 5000 (post_content p)))).
Proof.
  intros Hnew Hposts. split; [apply embed_new_agree, Hnew|].
  destruct (score_posts_agree q posts1 posts2 ec Hposts) as [Hc Hs].
  repeat split; [exact Hc | exact Hs |].
  intros id p Hid Hget. rewrite (embed_new_fresh _ _ _ _ Hid Hget).
  rewrite calculate_embedding_eq. reflexivity.
Qed.
End Embeddings.

Lemma embedding_depends_on_title_and_prefix_witness :
  post_content Sample.long_a ≠ post_content Sample.long_b
  ∧ @embed_new Toy.runtime [(post_id Sample.long_a, Sample.long_a)] ∅
    = @embed_new Toy.runtime [(post_id Sample.long_b, Sample.long_b)] ∅.
Proof.
  split.
  - intros Heq. apply (f_equal (λ s, Z.of_nat (String.length s))) in Heq.
    vm_compute in Heq. discriminate Heq.
  - refine (proj1 (@embedding_depends_on_title_and_prefix Toy.runtime
                     [(post_id Sample.long_a, Sample.long_a)]
                     [(post_id Sample.long_b, Sample.long_b)]
                     [Sample.long_a] [Sample.long_b] [] ∅ _ _)).
    + constructor; [|constructor]. split; [vm_compute; reflexivity|].
      split; vm_compute; reflexivity.
    + constructor; [|constructor]. split; [vm_compute; reflexivity|].
      split; vm_compute; reflexivity.
Defined.

(** ** The descending stable sort *)

Section SortFacts.
Context {A K : Type} (key : A → K) (lt : K → K → bool).

(** The keys the order is assumed on (for floats: those that are not NaN). *)
Variable ordered : K → Prop.
Hypothesis lt_asym :
  ∀ a b, ordered a → ordered b → lt a b = true → lt b a = false.
Hypothesis lt_negtrans :
  ∀ a b c, ordered a → ordered b → ordered c →
           lt a b = false → lt b c = false → lt a c = false.

Lemma insert_desc_perm (x : A) (l : list A) : insert_desc key lt x l ≡ₚ x :: l.
Proof.
  induction l as [|y l IH]; simpl; [reflexivity|].
  destruct (lt (key x) (key y)); [|reflexivity].
  rewrite IH. apply perm_swap.
Qed.

Lemma sort_desc_perm (l : list A) : sort_desc key lt l ≡ₚ l.
Proof.
  induction l as [|x l IH]; simpl; [reflexivity|].
  rewrite insert_desc_perm, IH. reflexivity.
Qed.





End SortFacts.


(** ** The order of floats that are not NaN *)









(** ** Division by a zero norm *)

Lemma is_zero_spec (x : float) :
  (x =? 0)%float = true → ∃ s, Prim2SF x = S754_zero s.
Proof.
  rewrite FloatAxioms.eqb_spec.
  change (Prim2SF 0) with (S754_zero false).
  destruct (Prim2SF x) as [s|s| |s m e]; try destruct s; simpl;
    try discriminate; eauto.
Qed.

Lemma not_finite_spec (x : float) :
  Prim2SF x = S754_nan ∨ (∃ s, Prim2SF x = S754_infinity s) →
  is_finite x = false.
Proof.
  unfold is_finite, is_nan, is_infinity.
  rewrite !FloatAxioms.eqb_spec, abs_spec.
  change (Prim2SF infinity) with (S754_infinity false).
  intros [->|[s ->]]; [|destruct s]; reflexivity.
Qed.

(** A quotient whose divisor is a product with a zero factor is NaN or
    infinite, whatever is divided. *)
Lemma div_zero_product_not_finite (d a b : float) :
  (a =? 0)%float = true ∨ (b =? 0)%float = true →
  is_finite (d / (a * b)) = false.
Proof.
  intros Hz. apply not_finite_spec. rewrite div_spec, mul_spec.
  unfold SF64div, SF64mul, SFdiv, SFmul.
  destruct Hz as [[s ->]%is_zero_spec|[s ->]%is_zero_spec].
  - destruct (Prim2SF b) as [?|?| |? ? ?], (Prim2SF d) as [?|?| |? ? ?]; eauto.
  - destruct (Prim2SF a) as [?|?| |? ? ?], (Prim2SF d) as [?|?| |? ? ?]; eauto.
Qed.

Lemma not_finite_not_zero (x : float) : is_finite x = false → x ≠ 0%float.
Proof. intros Hx ->. vm_compute in Hx. discriminate Hx. Qed.

(** ** Search *)

Section Search.
Context `{Runtime}.


(** Scoring never replaces an embedding that is cached. *)
Lemma score_posts_keeps (q : embedding) (posts : list Post) (ec : embeddings) k e :
  ec !! k = Some e → (score_posts q posts ec).2 !! k = Some e.
Proof.
  revert ec. induction posts as [|p l IH]; intros ec Hk; simpl; [exact Hk|].
  destruct (ec !! post_id p) as [e'|] eqn:Hp.
  - specialize (IH ec Hk). destruct (score_posts q l ec). exact IH.
  - specialize (IH (<[post_id p:=calculate_embedding (embedding_text p)]> ec)).
    destruct (score_posts q l _). apply IH.
    rewrite lookup_insert_ne; [exact Hk|]. intros Heq. congruence.
Qed.

(** The score of a post is computed from the embedding the cache holds for
    it once the scoring is over. *)
Lemma score_posts_final (q : embedding) (posts : list Post) (ec : embeddings) :
  (score_posts q posts ec).1
  = map (λ p, (p, similarity q (default [] ((score_posts q posts ec).2 !! post_id p))))
      posts
  ∧ Forall (λ p, is_Some ((score_posts q posts ec).2 !! post_id p)) posts.
Proof.
  revert ec. induction posts as [|p l IH]; intros ec; [split; [reflexivity|constructor]|].
  cbn [score_posts].
  destruct (ec !! post_id p) as [e|] eqn:Hp.
  - pose proof (score_posts_keeps q l ec _ _ Hp) as Hkeep.
    destruct (IH ec) as [Hres Hall].
    destruct (score_posts q l ec) as [res ec2]. cbn [fst snd map] in *.
    rewrite Hkeep. cbn [default]. split; [by rewrite Hres at 1|].
    constructor; [by rewrite Hkeep | exact Hall].
  - set (e := calculate_embedding (embedding_text p)).
    pose proof (score_posts_keeps q l (<[post_id p:=e]> ec) (post_id p) e
                  (lookup_insert_eq _ _ _)) as Hkeep.
    destruct (IH (<[post_id p:=e]> ec)) as [Hres Hall].
    destruct (score_posts q l (<[post_id p:=e]> ec)) as [res ec2].
    cbn [fst snd map] in *.
    rewrite Hkeep. cbn [default]. split; [by rewrite Hres at 1|].
    constructor; [by rewrite Hkeep | exact Hall].
Qed.



Lemma find_similar_posts_eq (cfg : config) (query : string) (all_posts : list Post)
    (top_n : Z) (ec : embeddings) :
  find_similar_posts cfg query all_posts top_n ec
  = (slice_to (effective_top_n cfg top_n)
       (sort_desc snd PrimFloat.ltb
          (score_posts (calculate_embedding query) all_posts ec).1),
     (score_posts (calculate_embedding query) all_posts ec).2).
Proof.
  destruct all_posts as [|p l].
  { simpl. unfold slice_to. destruct (0 <=? _); by rewrite take_nil. }
  unfold find_similar_posts. cbv zeta.
  by destruct (score_posts (calculate_embedding query) (p :: l) ec).
Qed.

Lemma slice_to_nonneg {A} (n : Z) (l : list A) :
  0 ≤ n → slice_to n l = take (Z.to_nat n) l.
Proof.
  intros Hn. unfold slice_to. destruct (Z.leb_spec 0 n); [reflexivity|lia].
Qed.

Lemma slice_to_In {A} (n : Z) (l : list A) x : In x (slice_to n l) → In x l.
Proof.
  assert (Htake : ∀ k, In x (take k l) → In x l).
  { intros k Hx. rewrite <- (firstn_skipn k l). apply in_or_app. by left. }
  unfold slice_to. destruct (0 <=? n); apply Htake.
Qed.

(** C9 (as the code has it).  The number of entries a search returns is
    bounded by the configured [similar_posts_count] whenever that is
    positive (10 when the key is absent), whatever [top_n] the caller
    passes; the caller's [top_n] bounds the result only when the
    configured count is zero or negative.  [search_writing] passes the
    configured count itself. *)
Theorem search_result_count_bound (cfg : config) (query : string)
    (all_posts : list Post) (top_n : Z) (ec : embeddings) :
  let custom_top_n := default 10 (cfg_similar_posts_count cfg) in
  let found := (find_similar_posts cfg query all_posts top_n ec).1 in
  (0 < custom_top_n → Z.of_nat (length found) ≤ custom_top_n)
  ∧ (custom_top_n ≤ 0 → 0 ≤ top_n → Z.of_nat (length found) ≤ top_n)
  ∧ (0 < custom_top_n →
     Z.of_nat (length (search_writing_posts cfg query all_posts ec).1)
     ≤ custom_top_n).
Proof.
  cbv zeta. unfold search_writing_posts. rewrite !find_similar_posts_eq.
  unfold effective_top_n. cbn [fst].
  split_and!.
  - intros Hpos. destruct (Z.ltb_spec 0 (default 10 (cfg_similar_posts_count cfg)));
      [|lia].
    rewrite slice_to_nonneg, length_take by lia. lia.
  - intros Hneg Htop. destruct (Z.ltb_spec 0 (default 10 (cfg_similar_posts_count cfg)));
      [lia|].
    rewrite slice_to_nonneg, length_take by lia. lia.
  - intros Hpos. destruct (Z.ltb_spec 0 (default 10 (cfg_similar_posts_count cfg)));
      [|lia].
    rewrite slice_to_nonneg, length_take by lia. lia.
Qed.

(** C5 (as the code has it).  Every score a search returns is
    [dot(q, e) / (norm(q) * norm(e))] for the query embedding [q] and the
    embedding [e] the cache holds for the post after the search, computed
    in floating point with no test of the norms: when either norm is zero
    the score is NaN or infinite, and so is not 0. *)
Theorem score_is_unguarded_cosine (cfg : config) (query : string)
    (all_posts : list Post) (top_n : Z) (ec : embeddings) (p : Post) (s : float) :
  In (p, s) (find_similar_posts cfg query all_posts top_n ec).1 →
  let q := calculate_embedding query in
  ∃ e, (find_similar_posts cfg query all_posts top_n ec).2 !! post_id p = Some e
       ∧ s = (dot q e / (norm q * norm e))%float
       ∧ ((norm q =? 0)%float = true ∨ (norm e =? 0)%float = true →
          is_finite s = false ∧ s ≠ 0%float).
Proof.
  rewrite find_similar_posts_eq. cbv zeta. cbn [fst snd].
  set (q := calculate_embedding query). intros Hin.
  apply slice_to_In in Hin.
  apply (Permutation_in _ (sort_desc_perm snd PrimFloat.ltb _)) in Hin.
  destruct (score_posts_final q all_posts ec) as [Hres Hall].
  rewrite Hres in Hin. apply in_map_iff in Hin as [p' [Heq Hp']].
  injection Heq as -> <-.
  rewrite Forall_forall in Hall. apply list_elem_of_In in Hp'.
  destruct (Hall _ Hp') as [e He]. exists e. rewrite He. simpl.
  split; [reflexivity|]. split; [reflexivity|].
  intros Hz. pose proof (div_zero_product_not_finite (dot q e) _ _ Hz) as Hnf.
  split; [exact Hnf | apply not_finite_not_zero, Hnf].
Qed.

End Search.

(** C9 as stated fails: with no configured count (so 10), a caller that
    passes [top_n = 1] over three posts gets three entries. *)
Lemma explicit_top_n_is_overridden :
  ¬ (Z.of_nat (length (@find_similar_posts Toy.runtime Sample.no_config "alpha"
                         [Sample.p1; Sample.p2; Sample.p3] 1 ∅).1) ≤ 1).
Proof. vm_compute. intros Hle. apply Hle. reflexivity. Qed.

Lemma search_result_count_bound_witness :
  Z.of_nat (length (@find_similar_posts Toy.runtime Sample.no_config "alpha"
                      [Sample.p1; Sample.p2; Sample.p3] 1 ∅).1) ≤ 10.
Proof.
  refine (proj1 (@search_result_count_bound Toy.runtime Sample.no_config "alpha"
                   [Sample.p1; Sample.p2; Sample.p3] 1 ∅) _).
  vm_compute. reflexivity.
Defined.

(** C5 as stated fails: the empty query has a zero embedding under the toy
    model, and the score it gives a post is NaN, not 0. *)
Lemma zero_norm_score_is_nan :
  (norm (@calculate_embedding Toy.runtime "") =? 0)%float = true
  ∧ map snd (@find_similar_posts Toy.runtime Sample.no_config ""
               [Sample.p1] 10 ∅).1 = [nan]
  ∧ nan ≠ 0%float.
Proof.
  split; [vm_compute; reflexivity|]. split; [vm_compute; reflexivity|].
  intros Heq. apply (f_equal is_nan) in Heq. vm_compute in Heq. discriminate Heq.
Qed.

Lemma score_is_unguarded_cosine_witness :
  let found := (@find_similar_posts Toy.runtime Sample.no_config "alpha"
                  [Sample.p1; Sample.p2] 10 ∅) in
  let top := hd (Sample.p1, 0%float) found.1 in
  ∃ e, found.2 !! post_id top.1 = Some e
       ∧ top.2 = (dot (@calculate_embedding Toy.runtime "alpha") e
                  / (norm (@calculate_embedding Toy.runtime "alpha") * norm e))%float.
Proof.
  intros found top.
  destruct (@score_is_unguarded_cosine Toy.runtime Sample.no_config "alpha"
              [Sample.p1; Sample.p2] 10 ∅ top.1 top.2) as [e [He [Hs _]]].
  - vm_compute. left. reflexivity.
  - exists e. split; assumption.
Defined.



(** ** The refresh engine *)

Section Writes.
Context {V : Type}.

Lemma apply_writes_app (m : gmap string V) (ws1 ws2 : list (string * V)) :
  apply_writes m (ws1 ++ ws2) = apply_writes (apply_writes m ws1) ws2.
Proof. apply foldl_app. Qed.

(** The last assignment to a key wins. *)
Lemma apply_writes_union (m : gmap string V) (ws : list (string * V)) :
  apply_writes m ws = list_to_map (reverse ws) ∪ m.
Proof.
  revert m. induction ws as [|[k v] ws IH]; intros m.
  - simpl. by rewrite (left_id_L ∅ (∪)).
  - cbn [apply_writes foldl fst snd]. fold (apply_writes (<[k:=v]> m) ws).
    rewrite IH, reverse_cons, list_to_map_app. cbn [list_to_map foldr].
    rewrite <- (assoc_L (∪)). f_equal.
    by rewrite insert_empty, <- insert_union_singleton_l.
Qed.

(** Making the same assignments a second time changes nothing. *)
Lemma apply_writes_twice (m : gmap string V) (ws : list (string * V)) :
  apply_writes (apply_writes m ws) ws = apply_writes m ws.
Proof.
  rewrite (apply_writes_union (apply_writes m ws)), apply_writes_union.
  by rewrite (assoc_L (∪)), (idemp_L (∪)).
Qed.

Lemma apply_writes_Forall (P : string → V → Prop) (m : gmap string V)
    (ws : list (string * V)) :
  map_Forall P m → Forall (λ kv, P kv.1 kv.2) ws → map_Forall P (apply_writes m ws).
Proof.
  intros Hm Hws. revert m Hm. induction Hws as [|[k v] ws Hkv _ IH]; intros m Hm.
  - exact Hm.
  - apply IH. by apply map_Forall_insert_2.
Qed.

(** What a key holds after a sequence of assignments does not depend on
    the map they are made to, unless none of them is to that key. *)
Lemma apply_writes_lookup (ws : list (string * V)) (k : string) :
  (∀ m : gmap string V, apply_writes m ws !! k = m !! k)
  ∨ (∃ v, In (k, v) ws ∧ ∀ m : gmap string V, apply_writes m ws !! k = Some v).
Proof.
  destruct ((list_to_map (reverse ws) : gmap string V) !! k) as [v|] eqn:Hk.
  - right. exists v. split.
    + apply elem_of_list_to_map_2 in Hk. rewrite elem_of_reverse in Hk.
      apply list_elem_of_In. exact Hk.
    + intros m. rewrite apply_writes_union. by apply lookup_union_Some_l.
  - left. intros m. rewrite apply_writes_union. by rewrite lookup_union_r.
Qed.

Lemma apply_writes_written (ws : list (string * V)) (k : string) (v0 : V) :
  In (k, v0) ws →
  ∃ v, In (k, v) ws ∧ ∀ m : gmap string V, apply_writes m ws !! k = Some v.
Proof.
  intros Hin. destruct (apply_writes_lookup ws k) as [Hun|Hw]; [|exact Hw].
  exfalso. specialize (Hun ∅). rewrite lookup_empty, apply_writes_union in Hun.
  apply lookup_union_None in Hun as [Hun _].
  apply not_elem_of_list_to_map_2 in Hun. apply Hun.
  apply list_elem_of_fmap. exists (k, v0). split; [reflexivity|].
  apply elem_of_reverse. by apply list_elem_of_In.
Qed.
End Writes.

Section Sync.
Context `{Runtime}.

Lemma cache_posts_eq (posts : list Post) (post_ids : list string)
    (records : gmap string (gmap string pyval)) (new_posts : list (string * Post)) :
  cache_posts posts post_ids records new_posts
  = ((post_ids ++ map post_id posts)%list,
     apply_writes records (map (λ p, ("post:" +:+ post_id p, to_dict p)) posts),
     mark_new new_posts posts).
Proof.
  revert post_ids records new_posts.
  induction posts as [|p posts IH]; intros ids recs np.
  - simpl. by rewrite app_nil_r.
  - cbn [cache_posts]. rewrite IH. cbn [map]. by rewrite <- app_assoc.
Qed.

Lemma check_platforms_eq (cache_duration : Z) (refresh : bool) (now : Z) (s : store)
    (pfs to_fetch : list platform) (results : gmap (option string) (list Post)) :
  check_platforms cache_duration refresh now s pfs to_fetch results
  = r ← serve_cached s
          (List.filter (λ pf, negb (due cache_duration refresh now s pf)) pfs) results;
    Some ((to_fetch ++ List.filter (due cache_duration refresh now s) pfs)%list, r).
Proof.
  revert to_fetch results. induction pfs as [|pf pfs IH]; intros tf res.
  - simpl. by rewrite app_nil_r.
  - cbn [check_platforms List.filter].
    destruct (due cache_duration refresh now s pf); cbn [negb].
    + rewrite IH, <- app_assoc. reflexivity.
    + cbn [serve_cached]. destruct (load_cached s (cache_key_of pf)) as [pp|]; simpl;
        [apply IH | reflexivity].
Qed.

Lemma fetch_platforms_app (cfg : config) (net : network) (now : Z)
    (st : sync_state) (l1 l2 : list platform) :
  fetch_platforms cfg net now st (l1 ++ l2)
  = st1 ← fetch_platforms cfg net now st l1; fetch_platforms cfg net now st1 l2.
Proof.
  revert st. induction l1 as [|pf l1 IH]; intros st; [reflexivity|].
  cbn [fetch_platforms app].
  destruct (fetch_platform cfg net now st pf) as [st1|]; simpl; [apply IH | reflexivity].
Qed.

(** A source of a type that has no adapter leaves the round untouched. *)
Lemma fetch_platform_skip (cfg : config) (net : network) (now : Z)
    (st : sync_state) (pf : platform) :
  pf_type pf ≠ Some "substack" → pf_type pf ≠ Some "medium" →
  fetch_platform cfg net now st pf = Some st.
Proof.
  intros Hs Hm. unfold fetch_platform, adapter_for.
  rewrite !bool_decide_eq_false_2 by assumption. reflexivity.
Qed.

(** A cache duration that [timedelta] refuses ends the call before it
    has looked at a source. *)
Lemma get_all_content_overflow (cfg : config) (net : network) (now : Z)
    (refresh : bool) (s : store) (ec : embeddings) :
  cache_duration_of cfg = None →
  get_all_content cfg net now refresh s ec = None
  ∧ posts_cache_after cfg net now refresh s = s.
Proof. intros Hd. unfold get_all_content, posts_cache_after. by rewrite Hd. Qed.

Lemma get_all_content_eq (cfg : config) (net : network) (now : Z) (refresh : bool)
    (s : store) (ec : embeddings) (cache_duration : Z) :
  cache_duration_of cfg = Some cache_duration →
  get_all_content cfg net now refresh s ec
  = let pfs := default [] (cfg_platforms cfg) in
    r ← serve_cached s
          (List.filter (λ pf, negb (due cache_duration refresh now s pf)) pfs) ∅;
    st ← fetch_platforms cfg net now
           {| st_results := r; st_store := s; st_new_posts := []; st_calls := [] |}
           (List.filter (due cache_duration refresh now s) pfs);
    Some {| out_results := st_results st; out_store := st_store st;
            out_embeddings := embed_new (st_new_posts st) ec;
            out_calls := st_calls st |}.
Proof.
  intros Hd. unfold get_all_content. rewrite Hd. cbn [mbind option_bind].
  rewrite check_platforms_eq. cbv zeta.
  destruct (serve_cached s _ ∅) as [r|]; reflexivity.
Qed.

(** A call that returns has a cache duration. *)
Lemma get_all_content_returns (cfg : config) (net : network) (now : Z)
    (refresh : bool) (s : store) (ec : embeddings) (out : outcome) :
  get_all_content cfg net now refresh s ec = Some out →
  ∃ cache_duration, cache_duration_of cfg = Some cache_duration.
Proof.
  unfold get_all_content. destruct (cache_duration_of cfg) as [d|]; [|discriminate].
  intros _. by exists d.
Qed.

Lemma fetch_platforms_store_eq (cfg : config) (net : network) (now : Z)
    (st st' : sync_state) (to_fetch : list platform) :
  fetch_platforms cfg net now st to_fetch = Some st' →
  fetch_platforms_store cfg net now st to_fetch = st_store st'.
Proof.
  revert st. induction to_fetch as [|pf tf IH]; intros st.
  - by intros [= <-].
  - cbn [fetch_platforms fetch_platforms_store].
    destruct (fetch_platform cfg net now st pf) as [st1|]; [|discriminate].
    apply IH.
Qed.

Lemma fetch_platforms_store_app (cfg : config) (net : network) (now : Z)
    (st st1 : sync_state) (l1 l2 : list platform) :
  fetch_platforms cfg net now st l1 = Some st1 →
  fetch_platforms_store cfg net now st (l1 ++ l2)
  = fetch_platforms_store cfg net now st1 l2.
Proof.
  revert st. induction l1 as [|pf l1 IH]; intros st.
  - by intros [= <-].
  - cbn [fetch_platforms fetch_platforms_store app].
    destruct (fetch_platform cfg net now st pf) as [st'|]; [|discriminate].
    apply IH.
Qed.

(** The store a call that returns hands over is the one it leaves. *)
Lemma get_all_content_store (cfg : config) (net : network) (now : Z)
    (refresh : bool) (s : store) (ec : embeddings) (out : outcome) :
  get_all_content cfg net now refresh s ec = Some out →
  out_store out = posts_cache_after cfg net now refresh s.
Proof.
  unfold get_all_content, posts_cache_after.
  destruct (cache_duration_of cfg) as [d|]; [|discriminate]. cbn [mbind option_bind].
  destruct (check_platforms d refresh now s _ [] ∅) as [[tf r]|]; [|discriminate].
  cbn [mbind option_bind].
  destruct (fetch_platforms cfg net now _ tf) as [st|] eqn:Hrun; [|discriminate].
  intros [= <-]. cbn [out_store]. symmetry. by apply fetch_platforms_store_eq.
Qed.

(** The loop runs through the rounds it completes, and stops after them
    only for an exception. *)
Lemma completed_rounds_run (cfg : config) (net : network) (now : Z)
    (st : sync_state) (to_fetch : list platform) :
  ∃ st_end rest,
    to_fetch = (completed_rounds cfg net now st to_fetch ++ rest)%list
    ∧ fetch_platforms cfg net now st (completed_rounds cfg net now st to_fetch)
      = Some st_end
    ∧ fetch_platforms_store cfg net now st to_fetch = st_store st_end
    ∧ match rest with
      | [] => True
      | pf :: _ => fetch_platform cfg net now st_end pf = None
      end.
Proof.
  revert st. induction to_fetch as [|pf tf IH]; intros st.
  - exists st, []. by split_and!.
  - cbn [completed_rounds fetch_platforms_store].
    destruct (fetch_platform cfg net now st pf) as [st1|] eqn:Hpf.
    + destruct (IH st1) as (st_end & rest & Heq & Hrun & Hstore & Hrest).
      exists st_end, rest. cbn [fetch_platforms app]. rewrite Hpf.
      cbn [mbind option_bind]. split_and!; try assumption. by rewrite <- Heq.
    + exists st, (pf :: tf). by split_and!.
Qed.

(** What one round of the second loop does, given that no exception
    leaves it. *)
Lemma fetch_platform_effects (cfg : config) (net : network) (now : Z)
    (st st' : sync_state) (pf : platform) :
  fetch_platform cfg net now st pf = Some st' →
  post_records (st_store st')
  = apply_writes (post_records (st_store st)) (record_writes cfg net [pf])
  ∧ member_ids (st_store st')
    = apply_writes (member_ids (st_store st)) (id_writes cfg net [pf])
  ∧ st_new_posts st' = mark_new (st_new_posts st) (marked_posts cfg net [pf])
  ∧ st_calls st'
    = (st_calls st ++ omap (adapter_for (default 100 (cfg_max_posts cfg))) [pf])%list
  ∧ ∀ n, name_of pf ≠ n → st_results st' !! n = st_results st !! n.
Proof.
  unfold fetch_platform, record_writes, id_writes, marked_posts, fetched_posts.
  cbn [flat_map omap list_omap]. rewrite !app_nil_r.
  destruct (adapter_for (default 100 (cfg_max_posts cfg)) pf) as [call|];
    cbn [mbind option_bind].
  - destruct (run_adapter net call) as [posts|].
    + rewrite cache_posts_eq. intros [= <-].
      cbn [st_store st_new_posts st_calls st_results store_fetched
             post_records member_ids default].
      split_and!; try reflexivity.
      intros n Hn. by rewrite lookup_insert_ne.
    + destruct (load_cached (st_store st) (cache_key_of pf)) as [pp|];
        cbn [mbind option_bind]; [|discriminate].
      intros [= <-]. cbn [st_store st_new_posts st_calls st_results default].
      split_and!; try reflexivity.
      intros n Hn. destruct pp; [reflexivity|]. by rewrite lookup_insert_ne.
  - intros [= <-]. rewrite app_nil_r. split_and!; reflexivity.
Qed.

(** What a run of the second loop does, given that no exception leaves
    it: the records and member lists are assigned as [record_writes] and
    [id_writes] say, the fetched posts are marked as new, one call is made
    for every source that has an adapter, and the result of a name that no
    fetched source carries is left alone. *)
Lemma fetch_platforms_effects (cfg : config) (net : network) (now : Z)
    (st st' : sync_state) (to_fetch : list platform) :
  fetch_platforms cfg net now st to_fetch = Some st' →
  post_records (st_store st')
  = apply_writes (post_records (st_store st)) (record_writes cfg net to_fetch)
  ∧ member_ids (st_store st')
    = apply_writes (member_ids (st_store st)) (id_writes cfg net to_fetch)
  ∧ st_new_posts st' = mark_new (st_new_posts st) (marked_posts cfg net to_fetch)
  ∧ st_calls st'
    = (st_calls st ++ omap (adapter_for (default 100 (cfg_max_posts cfg))) to_fetch)%list
  ∧ ∀ n, Forall (λ pf, name_of pf ≠ n) to_fetch →
         st_results st' !! n = st_results st !! n.
Proof.
  revert st. induction to_fetch as [|pf tf IH]; intros st Hrun.
  - injection Hrun as <-. rewrite app_nil_r. split_and!; reflexivity.
  - cbn [fetch_platforms] in Hrun.
    destruct (fetch_platform cfg net now st pf) as [st1|] eqn:Hpf; [|discriminate].
    cbn [mbind option_bind] in Hrun.
    destruct (IH st1 Hrun) as (Hrec & Hids & Hnew & Hcalls & Hres).
    destruct (fetch_platform_effects _ _ _ _ _ _ Hpf)
      as (Hrec1 & Hids1 & Hnew1 & Hcalls1 & Hres1).
    change (pf :: tf) with ([pf] ++ tf).
    unfold record_writes, id_writes, marked_posts in *.
    rewrite !flat_map_app, !apply_writes_app, omap_app.
    unfold mark_new in *. rewrite foldl_app.
    rewrite Hrec, Hids, Hnew, Hcalls, Hrec1, Hids1, Hnew1, Hcalls1, <- app_assoc.
    split_and!; try reflexivity.
    intros n Hall. change ([pf] ++ tf)%list with (pf :: tf) in Hall.
    apply Forall_cons in Hall as [Hn Htf]. rewrite (Hres n Htf). apply Hres1, Hn.
Qed.

(** Rebuilding posts reads the records only. *)
Lemma load_posts_ext (a b : store) (ids : list string) :
  post_records a = post_records b → load_posts a ids = load_posts b ids.
Proof.
  intros Heq. induction ids as [|i ids IH]; cbn [load_posts]; [reflexivity|].
  rewrite Heq, IH. reflexivity.
Qed.

Lemma load_cached_ext (a b : store) (cache_key : string) :
  post_records a = post_records b → member_ids a = member_ids b →
  load_cached a cache_key = load_cached b cache_key.
Proof. intros Hr Hi. unfold load_cached. rewrite Hi. by apply load_posts_ext. Qed.

(** Whether a round raises is decided by the records and the member lists
    it starts with. *)
Lemma fetch_platform_raises (cfg : config) (net : network) (now now' : Z)
    (a b : sync_state) (pf : platform) :
  post_records (st_store a) = post_records (st_store b) →
  member_ids (st_store a) = member_ids (st_store b) →
  fetch_platform cfg net now a pf = None → fetch_platform cfg net now' b pf = None.
Proof.
  intros Hr Hi. unfold fetch_platform.
  destruct (adapter_for _ pf) as [call|]; [|discriminate].
  destruct (run_adapter net call) as [posts|].
  - rewrite cache_posts_eq. discriminate.
  - rewrite (load_cached_ext _ _ _ Hr Hi).
    destruct (load_cached (st_store b) _); [discriminate|reflexivity].
Qed.

(** The rebuilding loop raises exactly on a record that is there, is not
    empty and cannot be read. *)
Lemma load_posts_readable (s : store) (ids : list string) :
  is_Some (load_posts s ids) ↔ readable_ids s ids.
Proof.
  unfold readable_ids. induction ids as [|i ids IH]; cbn [load_posts].
  - split; [constructor | by eexists].
  - rewrite Forall_cons.
    destruct (post_records s !! ("post:" +:+ i)) as [d|] eqn:Hd.
    + case_bool_decide as He.
      * rewrite IH. split; [intros Hl; split; [by left|exact Hl] | by intros [_ ?]].
      * destruct (from_dict d) as [p|] eqn:Hp; cbn [mbind option_bind].
        -- rewrite <- IH. destruct (load_posts s ids) as [ps|]; cbn [mbind option_bind].
           ++ split; [intros _; split; [right|]; by eexists | by eexists].
           ++ split; [intros [? [=]] | intros [_ [? [=]]]].
        -- split; [intros [? [=]] | intros [[?|[? [=]]] _]; done].
    + rewrite IH. split; [intros Hl; split; [exact I|exact Hl] | by intros [_ ?]].
Qed.

Lemma serve_cached_In (s : store) (pfs : list platform)
    (results r : gmap (option string) (list Post)) (pf : platform) :
  serve_cached s pfs results = Some r → In pf pfs →
  is_Some (load_cached s (cache_key_of pf)).
Proof.
  revert results. induction pfs as [|pf' pfs IH]; intros res Hrun Hin; [destruct Hin|].
  cbn [serve_cached] in Hrun.
  destruct (load_cached s (cache_key_of pf')) as [pp|] eqn:Hpp; [|discriminate].
  cbn [mbind option_bind] in Hrun.
  destruct Hin as [<-|Hin]; [rewrite Hpp; by eexists|]. by apply (IH _ Hrun).
Qed.

End Sync.

Section SyncOk.
Context `{Runtime} `{!RuntimeOk}.

Lemma from_dict_to_dict_ok (p : Post) : from_dict (to_dict p) = Some p.
Proof.
  destruct (post_date p) as [d|] eqn:Hd.
  - rewrite (from_dict_to_dict_date p d Hd (isoformat_nonempty d)).
    rewrite fromisoformat_isoformat. destruct p; simpl in *; subst; reflexivity.
  - apply from_dict_to_dict_no_date, Hd.
Qed.

(** Rebuilding posts from a store whose records are readable never raises. *)
Lemma load_posts_total (s : store) (ids : list string) :
  store_ok s → is_Some (load_posts s ids).
Proof.
  intros Hs. induction ids as [|i ids IH]; cbn [load_posts]; [by eexists|].
  destruct (post_records s !! ("post:" +:+ i)) as [d|] eqn:Hd; [|exact IH].
  case_bool_decide; [exact IH|].
  destruct (Hs _ _ Hd) as [->|[p Hp]]; [done|].
  rewrite Hp. destruct IH as [ps ->]. by eexists.
Qed.

Lemma load_cached_total (s : store) (cache_key : string) :
  store_ok s → is_Some (load_cached s cache_key).
Proof. intros Hs. apply load_posts_total, Hs. Qed.

Lemma serve_cached_total (s : store) (pfs : list platform)
    (results : gmap (option string) (list Post)) :
  store_ok s → is_Some (serve_cached s pfs results).
Proof.
  intros Hs. revert results. induction pfs as [|pf pfs IH]; intros res;
    cbn [serve_cached]; [by eexists|].
  destruct (load_cached_total s (cache_key_of pf) Hs) as [pp ->]. apply IH.
Qed.

Lemma fetch_platform_total (cfg : config) (net : network) (now : Z)
    (st : sync_state) (pf : platform) :
  store_ok (st_store st) →
  ∃ st', fetch_platform cfg net now st pf = Some st' ∧ store_ok (st_store st').
Proof.
  intros Hs. unfold fetch_platform.
  destruct (adapter_for (default 100 (cfg_max_posts cfg)) pf) as [call|];
    [|by eexists].
  destruct (run_adapter net call) as [posts|].
  - rewrite cache_posts_eq. eexists. split; [reflexivity|].
    unfold store_ok. cbn [st_store store_fetched post_records].
    apply apply_writes_Forall; [exact Hs|].
    apply Forall_map, Forall_forall. intros p _. right. cbn [fst snd].
    rewrite from_dict_to_dict_ok. by eexists.
  - destruct (load_cached_total _ (cache_key_of pf) Hs) as [pp ->].
    eexists. split; [reflexivity|exact Hs].
Qed.

Lemma fetch_platforms_total (cfg : config) (net : network) (now : Z)
    (st : sync_state) (to_fetch : list platform) :
  store_ok (st_store st) →
  ∃ st', fetch_platforms cfg net now st to_fetch = Some st'
         ∧ store_ok (st_store st').
Proof.
  revert st. induction to_fetch as [|pf tf IH]; intros st Hs; [by eexists|].
  cbn [fetch_platforms].
  destruct (fetch_platform_total cfg net now st pf Hs) as (st1 & -> & Hs1).
  apply IH, Hs1.
Qed.

(** A refresh of a store whose records are readable, with a cache
    duration that [timedelta] accepts, never raises, and leaves such a
    store. *)
Lemma get_all_content_total (cfg : config) (net : network) (now : Z)
    (refresh : bool) (s : store) (ec : embeddings) :
  is_Some (cache_duration_of cfg) → store_ok s →
  ∃ out, get_all_content cfg net now refresh s ec = Some out
         ∧ store_ok (out_store out).
Proof.
  intros [d Hd] Hs. rewrite (get_all_content_eq _ _ _ _ _ _ _ Hd). cbv zeta.
  destruct (serve_cached_total s
              (List.filter (λ pf, negb (due d refresh now s pf))
                 (default [] (cfg_platforms cfg))) ∅ Hs) as [r ->].
  cbn [mbind option_bind].
  destruct (fetch_platforms_total cfg net now
              {| st_results := r; st_store := s; st_new_posts := []; st_calls := [] |}
              (List.filter (due d refresh now s) (default [] (cfg_platforms cfg)))
              Hs) as (st & -> & Hst).
  eexists. split; [reflexivity|exact Hst].
Qed.

Lemma written_over_refl (a : store) : written_over a a.
Proof. split; intros k; by left. Qed.

(** What could be rebuilt before the writes can be rebuilt after them. *)
Lemma written_over_load (a b : store) (cache_key : string) :
  written_over a b →
  is_Some (load_cached a cache_key) → is_Some (load_cached b cache_key).
Proof.
  unfold load_cached. rewrite !load_posts_readable. intros [Hr Hi] Ha.
  unfold readable_ids in *.
  destruct (Hi (cache_key +:+ ":post_ids")) as [Heq | (ids & Hids & Hall)].
  - rewrite Heq. rewrite Forall_forall in Ha |- *. intros i Hin.
    specialize (Ha i Hin). cbn beta in Ha.
    destruct (Hr ("post:" +:+ i)) as [-> | [p ->]]; [exact Ha|].
    right. rewrite from_dict_to_dict_ok. by eexists.
  - rewrite Hids. cbn [default from_option]. rewrite Forall_forall in Hall |- *.
    intros i Hin. destruct (Hall i Hin) as [p ->].
    right. rewrite from_dict_to_dict_ok. by eexists.
Qed.

(** A record written by [to_dict] is still one after the posts of a
    fetch are cached. *)
Lemma to_dict_kept (records : gmap string (gmap string pyval)) (posts : list Post)
    (k : string) :
  (∃ p, records !! k = Some (to_dict p)) →
  ∃ p, apply_writes records (map (λ p, ("post:" +:+ post_id p, to_dict p)) posts) !! k
       = Some (to_dict p).
Proof.
  intros Hk.
  destruct (apply_writes_lookup (map (λ p, ("post:" +:+ post_id p, to_dict p)) posts) k)
    as [Hun | (v & Hin & Hw)].
  - by rewrite Hun.
  - apply in_map_iff in Hin as (p & [= _ <-] & _). exists p. apply Hw.
Qed.

(** The same fetch made to both stores. *)
Lemma written_over_fetched (a b : store) (cache_key : string) (now now' : Z)
    (posts : list Post) :
  let ws := map (λ p, ("post:" +:+ post_id p, to_dict p)) posts in
  written_over a b →
  written_over
    (store_fetched a cache_key now (map post_id posts) (apply_writes (post_records a) ws))
    (store_fetched b cache_key now' (map post_id posts) (apply_writes (post_records b) ws)).
Proof.
  intros ws [Hr Hi]. split; intros k; cbn [store_fetched post_records member_ids].
  - destruct (apply_writes_lookup ws k) as [Hun | (v & Hin & Hw)].
    + rewrite !Hun. apply Hr.
    + left. by rewrite !Hw.
  - destruct (decide (k = cache_key +:+ ":post_ids")) as [->|Hne].
    + left. by rewrite !lookup_insert_eq.
    + rewrite !lookup_insert_ne by done.
      destruct (Hi k) as [Heq | (ids & Hids & Hall)]; [by left|].
      right. exists ids. split; [exact Hids|].
      rewrite Forall_forall in Hall |- *. intros i Hin.
      apply to_dict_kept, Hall, Hin.
Qed.

(** A fetch made to the second store only. *)
Lemma written_over_fetched_r (a b : store) (cache_key : string) (now : Z)
    (posts : list Post) :
  let ws := map (λ p, ("post:" +:+ post_id p, to_dict p)) posts in
  written_over a b →
  written_over a
    (store_fetched b cache_key now (map post_id posts) (apply_writes (post_records b) ws)).
Proof.
  intros ws [Hr Hi]. split; intros k; cbn [store_fetched post_records member_ids].
  - destruct (apply_writes_lookup ws k) as [Hun | (v & Hin & Hw)].
    + rewrite Hun. apply Hr.
    + right. apply in_map_iff in Hin as (p & [= _ <-] & _). exists p. apply Hw.
  - destruct (decide (k = cache_key +:+ ":post_ids")) as [->|Hne].
    + right. exists (map post_id posts). rewrite lookup_insert_eq. split; [reflexivity|].
      apply Forall_forall. intros i Hin%list_elem_of_In.
      apply in_map_iff in Hin as (p & <- & Hp).
      destruct (apply_writes_written ws ("post:" +:+ post_id p) (to_dict p))
        as (v & Hv & Hw).
      { apply in_map_iff. by exists p. }
      apply in_map_iff in Hv as (p' & [= _ <-] & _). exists p'. apply Hw.
    + rewrite lookup_insert_ne by done.
      destruct (Hi k) as [Heq | (ids & Hids & Hall)]; [by left|].
      right. exists ids. split; [exact Hids|].
      rewrite Forall_forall in Hall |- *. intros i Hin.
      apply to_dict_kept, Hall, Hin.
Qed.

Lemma fetch_platform_written_over (cfg : config) (net : network) (now : Z)
    (x : store) (st st' : sync_state) (pf : platform) :
  fetch_platform cfg net now st pf = Some st' →
  written_over x (st_store st) → written_over x (st_store st').
Proof.
  unfold fetch_platform.
  destruct (adapter_for _ pf) as [call|]; [|by intros [= <-]].
  destruct (run_adapter net call) as [posts|].
  - rewrite cache_posts_eq. intros [= <-] Hx. cbn [st_store app].
    by apply written_over_fetched_r.
  - destruct (load_cached (st_store st) _); [|discriminate].
    by intros [= <-].
Qed.

Lemma fetch_platforms_written_over (cfg : config) (net : network) (now : Z)
    (x : store) (st st' : sync_state) (to_fetch : list platform) :
  fetch_platforms cfg net now st to_fetch = Some st' →
  written_over x (st_store st) → written_over x (st_store st').
Proof.
  revert st. induction to_fetch as [|pf tf IH]; intros st; [by intros [= <-]|].
  cbn [fetch_platforms].
  destruct (fetch_platform cfg net now st pf) as [st1|] eqn:Hpf; [|discriminate].
  cbn [mbind option_bind]. intros Hrun Hx.
  apply (IH _ Hrun). by apply (fetch_platform_written_over _ _ _ _ _ _ _ Hpf).
Qed.

(** A round that is completed from one store is completed from a store
    written over it. *)
Lemma fetch_platform_lockstep (cfg : config) (net : network) (now now' : Z)
    (a a' b : sync_state) (pf : platform) :
  fetch_platform cfg net now a pf = Some a' →
  written_over (st_store a) (st_store b) →
  ∃ b', fetch_platform cfg net now' b pf = Some b'
        ∧ written_over (st_store a') (st_store b').
Proof.
  unfold fetch_platform.
  destruct (adapter_for _ pf) as [call|]; [|intros [= <-] Hab; by eexists].
  destruct (run_adapter net call) as [posts|].
  - rewrite !cache_posts_eq. intros [= <-] Hab. eexists. split; [reflexivity|].
    cbn [st_store app]. by apply written_over_fetched.
  - destruct (load_cached (st_store a) (cache_key_of pf)) as [pp|] eqn:Hpp;
      [|discriminate].
    intros [= <-] Hab.
    destruct (written_over_load _ _ (cache_key_of pf) Hab) as [pp' Hpp'];
      [rewrite Hpp; by eexists|].
    rewrite Hpp'. eexists. split; [reflexivity|exact Hab].
Qed.

Lemma fetch_platforms_lockstep (cfg : config) (net : network) (now now' : Z)
    (a a' b : sync_state) (to_fetch : list platform) :
  fetch_platforms cfg net now a to_fetch = Some a' →
  written_over (st_store a) (st_store b) →
  ∃ b', fetch_platforms cfg net now' b to_fetch = Some b'.
Proof.
  revert a b. induction to_fetch as [|pf tf IH]; intros a b; [by eexists|].
  cbn [fetch_platforms].
  destruct (fetch_platform cfg net now a pf) as [a1|] eqn:Hpf; [|discriminate].
  cbn [mbind option_bind]. intros Hrun Hab.
  destruct (fetch_platform_lockstep _ _ _ now' _ _ _ _ Hpf Hab) as (b1 & -> & Hab1).
  cbn [mbind option_bind]. by apply (IH _ _ Hrun).
Qed.

(** The second loop run again from the store a first run left, whether
    the first run came to its end or not, leaves the records and the
    member lists as the first run left them: the second run completes the
    rounds the first completed, repeating their assignments, and is left
    by an exception where the first was. *)
Lemma fetch_platforms_store_twice (cfg : config) (net : network) (now now' : Z)
    (a b : sync_state) (to_fetch : list platform) :
  st_store b = fetch_platforms_store cfg net now a to_fetch →
  post_records (fetch_platforms_store cfg net now' b to_fetch)
  = post_records (st_store b)
  ∧ member_ids (fetch_platforms_store cfg net now' b to_fetch)
    = member_ids (st_store b).
Proof.
  intros Hb.
  destruct (completed_rounds_run cfg net now a to_fetch)
    as (a_end & rest & Hsplit & Hrun & Hstore & Hrest).
  rewrite Hstore in Hb. clear Hstore. revert Hsplit Hrun.
  generalize (completed_rounds cfg net now a to_fetch). intros done_rounds -> Hrun.
  destruct (fetch_platforms_effects _ _ _ _ _ _ Hrun) as (Hrec & Hids & _).
  assert (Hab : written_over (st_store a) (st_store b)).
  { rewrite Hb. apply (fetch_platforms_written_over _ _ _ _ _ _ _ Hrun).
    apply written_over_refl. }
  destruct (fetch_platforms_lockstep _ _ _ now' _ _ _ _ Hrun Hab) as [b_end Hrun'].
  destruct (fetch_platforms_effects _ _ _ _ _ _ Hrun') as (Hrec' & Hids' & _).
  assert (Hsame : post_records (st_store b_end) = post_records (st_store b)
                  ∧ member_ids (st_store b_end) = member_ids (st_store b)).
  { rewrite Hrec', Hids', Hb, Hrec, Hids, !apply_writes_twice. by split. }
  rewrite (fetch_platforms_store_app _ _ _ _ _ _ _ Hrun').
  destruct rest as [|pf rest]; [exact Hsame|].
  cbn [fetch_platforms_store].
  rewrite (fetch_platform_raises cfg net now now' a_end b_end pf); [exact Hsame|..].
  - destruct Hsame as [-> _]. by rewrite Hb.
  - destruct Hsame as [_ ->]. by rewrite Hb.
  - exact Hrest.
Qed.
End SyncOk.

Section Gating.
Context `{Runtime}.

Lemma is_due_iff (refresh : bool) (now cache_duration : Z) (lft : option Z) :
  is_due refresh now cache_duration lft = true
  ↔ refresh = true ∨ lft = None ∨ ∃ t, lft = Some t ∧ cache_duration < now - t.
Proof.
  unfold is_due. destruct refresh; [intuition|]. destruct lft as [t|]; simpl.
  - rewrite Z.ltb_lt. split.
    + intros Hlt. right. right. by exists t.
    + intros [?|[?|(t' & [= <-] & Hlt)]]; [done..|exact Hlt].
  - intuition.
Qed.

(** A cache duration that [timedelta] accepts is the configured number of
    minutes, in microseconds, and that number is within a thousand million
    days. *)
Lemma cache_duration_of_Some (cfg : config) (cache_duration : Z) :
  cache_duration_of cfg = Some cache_duration
  ↔ cache_duration
    = default (60 * 24 * 7) (cfg_cache_duration_minutes cfg) * 60000000
    ∧ -999999999 * 1440
      ≤ default (60 * 24 * 7) (cfg_cache_duration_minutes cfg)
      < 1000000000 * 1440.
Proof.
  unfold cache_duration_of, timedelta_minutes.
  generalize (default (60 * 24 * 7) (cfg_cache_duration_minutes cfg)). intros m.
  pose proof (Z.div_mod m 1440 ltac:(lia)) as Hm.
  pose proof (Z.mod_pos_bound m 1440 ltac:(lia)) as Hr.
  destruct (Z.leb_spec (-999999999) (m / 1440)) as [Hlo|Hlo];
    destruct (Z.leb_spec (m / 1440) 999999999) as [Hhi|Hhi]; cbn [andb].
  - split; [intros [= <-]; lia|intros [-> _]; reflexivity].
  - split; [discriminate|lia].
  - split; [discriminate|lia].
  - lia.
Qed.

(** Sources that select the same adapter call share their cache key. *)
Lemma adapter_for_cache_key (max_posts : Z) (pf pf' : platform) call :
  adapter_for max_posts pf = Some call → adapter_for max_posts pf' = Some call →
  cache_key_of pf = cache_key_of pf'.
Proof.
  unfold adapter_for, cache_key_of.
  repeat case_bool_decide; intros [= <-] [= Heq]; try done; simplify_eq; congruence.
Qed.

Lemma due_cache_key (cache_duration : Z) (refresh : bool) (now : Z) (s : store)
    (pf pf' : platform) :
  cache_key_of pf = cache_key_of pf' →
  due cache_duration refresh now s pf = due cache_duration refresh now s pf'.
Proof. unfold due. by intros ->. Qed.

Lemma serve_cached_lookup (s : store) (pfs : list platform)
    (results r : gmap (option string) (list Post)) (n : option string)
    (posts : list Post) :
  serve_cached s pfs results = Some r →
  (∀ pf, In pf pfs → name_of pf = n →
         load_cached s (cache_key_of pf) = Some posts) →
  (results !! n = Some posts ∨ ∃ pf, In pf pfs ∧ name_of pf = n) →
  r !! n = Some posts.
Proof.
  revert results. induction pfs as [|pf pfs IH]; intros res Hrun Hload Hsrc.
  - injection Hrun as <-. destruct Hsrc as [?|(pf & [] & _)]. done.
  - cbn [serve_cached] in Hrun.
    destruct (load_cached s (cache_key_of pf)) as [pp|] eqn:Hpp; [|discriminate].
    cbn [mbind option_bind] in Hrun. apply (IH _ Hrun).
    + intros pf' Hin. apply Hload. by right.
    + destruct (decide (name_of pf = n)) as [Hn|Hn].
      * left. rewrite Hn, lookup_insert_eq.
        rewrite (Hload pf (or_introl eq_refl) Hn) in Hpp. done.
      * rewrite lookup_insert_ne by done.
        destruct Hsrc as [?|(pf' & [<-|Hin] & Hn')]; [by left|done|].
        right. by exists pf'.
Qed.

(** The fetch loop reads the configuration for [max_posts] only. *)
Lemma fetch_platforms_with_platforms (cfg : config) (pfs : list platform)
    (net : network) (now : Z) (st : sync_state) (to_fetch : list platform) :
  fetch_platforms (with_platforms cfg pfs) net now st to_fetch
  = fetch_platforms cfg net now st to_fetch.
Proof.
  revert st. induction to_fetch as [|pf tf IH]; intros st; [reflexivity|].
  cbn [fetch_platforms].
  change (fetch_platform (with_platforms cfg pfs) net now st pf)
    with (fetch_platform cfg net now st pf).
  destruct (fetch_platform cfg net now st pf) as [st1|]; [apply IH|reflexivity].
Qed.

Lemma embed_new_covers (new_posts : list (string * Post)) (ec : embeddings) :
  Forall (λ kp, is_Some (embed_new new_posts ec !! kp.1)) new_posts.
Proof.
  revert ec. induction new_posts as [|[i p] l IH]; intros ec; constructor.
  - cbn [embed_new fst]. destruct (ec !! i) as [e|] eqn:Hi.
    + rewrite (embed_new_keeps _ _ _ _ Hi). by eexists.
    + rewrite (embed_new_keeps l _ i _ (lookup_insert_eq _ _ _)). by eexists.
  - cbn [embed_new]. destruct (ec !! i); apply IH.
Qed.

Lemma embed_new_present (new_posts : list (string * Post)) (ec : embeddings) :
  Forall (λ kp, is_Some (ec !! kp.1)) new_posts → embed_new new_posts ec = ec.
Proof.
  induction 1 as [|[i p] l [e Hi] _ IH]; [reflexivity|].
  cbn [embed_new]. cbn [fst] in Hi. by rewrite Hi.
Qed.

(** With [refresh] set every source is due. *)
Lemma forced_refresh_all_due (cache_duration : Z) (now : Z) (s : store)
    (pfs : list platform) :
  List.filter (due cache_duration true now s) pfs = pfs
  ∧ List.filter (λ pf, negb (due cache_duration true now s pf)) pfs = [].
Proof.
  induction pfs as [|pf pfs [IH1 IH2]]; [done|].
  cbn [List.filter]. change (due cache_duration true now s pf) with true. cbn [negb].
  by rewrite IH1, IH2.
Qed.

(** A forced refresh with a cache duration goes straight to the second
    loop, with every configured source. *)
Lemma forced_refresh_eq (cfg : config) (net : network) (now : Z) (s : store)
    (ec : embeddings) :
  is_Some (cache_duration_of cfg) →
  let start := {| st_results := ∅; st_store := s; st_new_posts := []; st_calls := [] |} in
  let pfs := default [] (cfg_platforms cfg) in
  get_all_content cfg net now true s ec
  = (st ← fetch_platforms cfg net now start pfs;
     Some {| out_results := st_results st; out_store := st_store st;
             out_embeddings := embed_new (st_new_posts st) ec;
             out_calls := st_calls st |})
  ∧ posts_cache_after cfg net now true s
    = fetch_platforms_store cfg net now start pfs.
Proof.
  intros [d Hd] start pfs. split.
  - rewrite (get_all_content_eq _ _ _ _ _ _ _ Hd). cbv zeta. fold pfs.
    destruct (forced_refresh_all_due d now s pfs) as [-> ->]. reflexivity.
  - unfold posts_cache_after. rewrite Hd, check_platforms_eq. fold pfs.
    destruct (forced_refresh_all_due d now s pfs) as [-> ->]. reflexivity.
Qed.

(** C7 (as the code has it).  A source that is due and whose type is
    neither ["substack"] nor ["medium"] is passed over: its round of the
    fetch loop changes nothing, and the whole call, in what it returns,
    in both caches, in the adapter calls it makes and in whether it raises,
    is the call for the configuration without that source.  The source
    is due with respect to the cache duration the call computes; a call
    that cannot compute one raises with the source as without it. *)
Theorem unsupported_type_is_skipped (cfg : config) (net : network) (now : Z)
    (refresh : bool) (s : store) (ec : embeddings)
    (before : list platform) (pf : platform) (after : list platform) :
  cfg_platforms cfg = Some (before ++ pf :: after) →
  pf_type pf ≠ Some "substack" → pf_type pf ≠ Some "medium" →
  (∀ cache_duration, cache_duration_of cfg = Some cache_duration →
                     due cache_duration refresh now s pf = true) →
  (∀ st, fetch_platform cfg net now st pf = Some st)
  ∧ get_all_content cfg net now refresh s ec
    = get_all_content (with_platforms cfg (before ++ after)) net now refresh s ec.
Proof.
  intros Hcfg Hsub Hmed Hdue.
  split; [intros st; by apply fetch_platform_skip|].
  destruct (cache_duration_of cfg) as [d|] eqn:Hd.
  - specialize (Hdue d eq_refl).
    rewrite (get_all_content_eq cfg _ _ _ _ _ d Hd).
    rewrite (get_all_content_eq (with_platforms cfg (before ++ after)) _ _ _ _ _ d Hd).
    rewrite Hcfg. cbv zeta.
    cbn [with_platforms cfg_platforms default from_option]. unfold id.
    rewrite !List.filter_app. cbn [List.filter]. rewrite Hdue. cbn [negb].
    destruct (serve_cached s _ ∅) as [r|]; [|reflexivity]. cbn [mbind option_bind].
    rewrite fetch_platforms_with_platforms, !fetch_platforms_app. cbn [fetch_platforms].
    destruct (fetch_platforms cfg net now _ (List.filter _ before)) as [st1|];
      [|reflexivity].
    cbn [mbind option_bind]. rewrite (fetch_platform_skip _ _ _ _ _ Hsub Hmed).
    reflexivity.
  - destruct (get_all_content_overflow cfg net now refresh s ec Hd) as [-> _].
    destruct (get_all_content_overflow (with_platforms cfg (before ++ after))
                net now refresh s ec Hd) as [-> _].
    reflexivity.
Qed.
End Gating.

Section Refresh.
Context `{Runtime} `{!RuntimeOk}.

(** C2 (as the code has it).  The call computes its cache duration first:
    the configured number of minutes, a week when none is configured, as
    a [timedelta].  Given that duration, a source is due exactly when
    [refresh] is set, or no fetch time is stored under its cache key, or
    the stored time is more than the duration before [now].  A call that
    returns, as every call on a store whose records are readable does,
    has made the adapter calls of the configured sources that are due, in
    order, one each: the adapter of a source that has one is called if
    and only if the source is due.  A source that is not due is rebuilt
    from its member ids, and the result holds those posts under its name
    when the name is shared only with sources of the same cache key. *)
Theorem refetch_exactly_when_due (cfg : config) (net : network) (now : Z)
    (refresh : bool) (s : store) (ec : embeddings) (cache_duration : Z) :
  cache_duration_of cfg = Some cache_duration →
  let pfs := default [] (cfg_platforms cfg) in
  let max_posts := default 100 (cfg_max_posts cfg) in
  cache_duration = default (60 * 24 * 7) (cfg_cache_duration_minutes cfg) * 60000000
  ∧ (∀ pf, due cache_duration refresh now s pf = true
           ↔ refresh = true
             ∨ fetch_times s !! (cache_key_of pf +:+ ":last_fetch_time") = None
             ∨ ∃ t, fetch_times s !! (cache_key_of pf +:+ ":last_fetch_time") = Some t
                    ∧ cache_duration < now - t)
  ∧ (store_ok s → is_Some (get_all_content cfg net now refresh s ec))
  ∧ ∀ out, get_all_content cfg net now refresh s ec = Some out →
      out_calls out
      = omap (adapter_for max_posts) (List.filter (due cache_duration refresh now s) pfs)
      ∧ (∀ pf call, In pf pfs → adapter_for max_posts pf = Some call →
                    (In call (out_calls out) ↔ due cache_duration refresh now s pf = true))
      ∧ (∀ pf, In pf pfs → due cache_duration refresh now s pf = false →
               ∃ posts, load_cached s (cache_key_of pf) = Some posts
                        ∧ ((∀ pf', In pf' pfs → name_of pf' = name_of pf →
                                   cache_key_of pf' = cache_key_of pf) →
                           out_results out !! name_of pf = Some posts)).
Proof.
  intros Hd pfs max_posts.
  split; [by apply cache_duration_of_Some in Hd as [-> _]|].
  split; [intros pf; apply is_due_iff|].
  split.
  { intros Hs.
    destruct (get_all_content_total cfg net now refresh s ec) as (out & -> & _);
      [by eexists|exact Hs|by eexists]. }
  intros out Hout.
  rewrite (get_all_content_eq _ _ _ _ _ _ _ Hd) in Hout. cbv zeta in Hout.
  fold pfs in Hout.
  destruct (serve_cached s _ ∅) as [r|] eqn:Hserve; [|discriminate].
  cbn [mbind option_bind] in Hout.
  destruct (fetch_platforms cfg net now _ _) as [st|] eqn:Hfetch; [|discriminate].
  injection Hout as <-. cbn [out_calls out_results].
  destruct (fetch_platforms_effects _ _ _ _ _ _ Hfetch) as (_ & _ & _ & Hcalls & Hres).
  cbn [st_calls st_results app] in Hcalls, Hres. fold max_posts in Hcalls.
  split; [exact Hcalls|]. split.
  - intros pf call Hpf Hcall. rewrite Hcalls. split.
    + intros Hin%list_elem_of_In. apply list_elem_of_omap in Hin as (pf' & Hpf' & Hcall').
      apply list_elem_of_In, filter_In in Hpf' as [_ Hdue].
      by rewrite (due_cache_key _ _ _ _ _ _ (adapter_for_cache_key _ _ _ _ Hcall Hcall')).
    + intros Hdue. apply list_elem_of_In, list_elem_of_omap. exists pf.
      split; [|exact Hcall]. apply list_elem_of_In, filter_In. by split.
  - intros pf Hpf Hdue.
    assert (Hserved : In pf (List.filter (λ pf, negb (due cache_duration refresh now s pf))
                               pfs)).
    { apply filter_In. split; [exact Hpf|]. by rewrite Hdue. }
    destruct (serve_cached_In _ _ _ _ pf Hserve Hserved) as [posts Hposts].
    exists posts. split; [exact Hposts|]. intros Hnames.
    rewrite Hres.
    + apply (serve_cached_lookup _ _ _ _ _ _ Hserve).
      * intros pf' [Hpf' _]%filter_In Hn. by rewrite (Hnames pf' Hpf' Hn).
      * right. by exists pf.
    + apply Forall_forall. intros pf' [Hpf' Hdue']%list_elem_of_In%filter_In Hn.
      rewrite (due_cache_key _ _ _ _ _ _ (Hnames pf' Hpf' Hn)) in Hdue'. congruence.
Qed.

End Refresh.

Section Idempotence.
Context `{Runtime} `{!RuntimeOk}.

(** C8. Two forced refreshes in a row over the same network leave the
    same serialised posts and the same member-id list for every source,
    whether the calls return or raise: the second call repeats the
    assignments of the first and is left by an exception where the first
    was, if it was.  When the first call returns, so does the second; each
    fetched source has the ids of its fetched posts as its list, the
    second call adds nothing to it, and the embedding cache and the
    adapter calls are the same too. *)
Theorem forced_refresh_twice (cfg : config) (net : network) (now now' : Z)
    (s : store) :
  let pfs := default [] (cfg_platforms cfg) in
  let s1 := posts_cache_after cfg net now true s in
  let s2 := posts_cache_after cfg net now' true s1 in
  post_records s2 = post_records s1
  ∧ member_ids s2 = member_ids s1
  ∧ ∀ ec out, get_all_content cfg net now true s ec = Some out →
      out_store out = s1
      ∧ post_records s1 = apply_writes (post_records s) (record_writes cfg net pfs)
      ∧ member_ids s1 = apply_writes (member_ids s) (id_writes cfg net pfs)
      ∧ ∃ out', get_all_content cfg net now' true s1 (out_embeddings out) = Some out'
                ∧ out_store out' = s2
                ∧ out_embeddings out' = out_embeddings out
                ∧ out_calls out' = out_calls out.
Proof.
  intros pfs s1 s2.
  destruct (cache_duration_of cfg) as [d|] eqn:Hd.
  2: { assert (Hs1 : s1 = s) by apply (get_all_content_overflow cfg net now true s ∅ Hd).
       assert (Hs2 : s2 = s1)
         by apply (get_all_content_overflow cfg net now' true s1 ∅ Hd).
       rewrite Hs2. split_and!; try reflexivity.
       intros ec out Hout.
       destruct (get_all_content_overflow cfg net now true s ec Hd) as [Hnone _].
       congruence. }
  assert (Hsome : is_Some (cache_duration_of cfg)) by (rewrite Hd; by eexists).
  set (start := λ x, {| st_results := ∅; st_store := x;
                        st_new_posts := []; st_calls := [] |}).
  assert (Hs1 : s1 = fetch_platforms_store cfg net now (start s) pfs)
    by apply (forced_refresh_eq cfg net now s ∅ Hsome).
  assert (Hs2 : s2 = fetch_platforms_store cfg net now' (start s1) pfs)
    by apply (forced_refresh_eq cfg net now' s1 ∅ Hsome).
  pose proof (λ ec out, get_all_content_store cfg net now true s ec out) as Hleft.
  fold s1 in Hleft. clearbody s2 s1.
  destruct (fetch_platforms_store_twice cfg net now now' (start s) (start s1) pfs Hs1)
    as [Hrec2 Hids2].
  rewrite <- Hs2 in Hrec2, Hids2. cbn [start st_store] in Hrec2, Hids2.
  split; [exact Hrec2|]. split; [exact Hids2|].
  intros ec out Hout.
  pose proof (Hleft _ _ Hout) as Hstore.
  split; [exact Hstore|].
  rewrite (proj1 (forced_refresh_eq cfg net now s ec Hsome)) in Hout.
  fold pfs in Hout. fold (start s) in Hout.
  destruct (fetch_platforms cfg net now (start s) pfs) as [st|] eqn:Hrun; [|discriminate].
  injection Hout as <-. cbn [out_store out_embeddings out_calls] in *.
  destruct (fetch_platforms_effects _ _ _ _ _ _ Hrun)
    as (Hrec & Hids & Hnew & Hcalls & _).
  cbn [start st_store st_new_posts st_calls] in Hrec, Hids, Hnew, Hcalls.
  rewrite <- Hstore. split; [exact Hrec|]. split; [exact Hids|].
  assert (Hover : written_over (st_store (start s)) (st_store (start (st_store st)))).
  { cbn [start st_store].
    apply (fetch_platforms_written_over _ _ _ _ _ _ _ Hrun), written_over_refl. }
  destruct (fetch_platforms_lockstep _ _ _ now' _ _ _ _ Hrun Hover) as [st' Hrun'].
  assert (Hsome' := Hsome).
  rewrite (proj1 (forced_refresh_eq cfg net now' (st_store st)
                    (embed_new (st_new_posts st) ec) Hsome)).
  fold pfs. fold (start (st_store st)). rewrite Hrun'. cbn [mbind option_bind].
  eexists. split; [reflexivity|]. cbn [out_store out_embeddings out_calls].
  destruct (fetch_platforms_effects _ _ _ _ _ _ Hrun')
    as (_ & _ & Hnew' & Hcalls' & _).
  cbn [start st_store st_new_posts st_calls] in Hnew', Hcalls'.
  split_and!.
  - rewrite Hs2, <- Hstore. symmetry. by apply fetch_platforms_store_eq.
  - rewrite Hnew', <- Hnew. apply embed_new_present, embed_new_covers.
  - by rewrite Hcalls', Hcalls.
Qed.
End Idempotence.

(** ** The engine on sample data *)

Lemma scenario_store_ok (pf : platform) (fetched_at : option Z) :
  @store_ok Toy.runtime (Scenario.store_with pf fetched_at).
Proof.
  unfold store_ok, Scenario.store_with. cbn [post_records].
  apply map_Forall_singleton. right.
  rewrite (@from_dict_to_dict_ok Toy.runtime toy_runtime_ok). by eexists.
Qed.

(** C1, at a failing input.  The store holds one post for a Substack
    source that is due, and the request for its feed fails.  The adapter
    turns the failure into an empty list, which the engine takes for a
    successful fetch: the call returns, the source is given no posts, its
    member-id list is replaced by the empty list, and its fetch time is set
    to [now]. *)
Theorem network_failure_replaces_snapshot :
  let s := Scenario.store_with Scenario.substack_a (Some Scenario.t0) in
  let key := cache_key_of Scenario.substack_a in
  let now := Scenario.t0 + 2 * Scenario.week in
  let run := @get_all_content Toy.runtime (Scenario.cfg_of [Scenario.substack_a])
               Scenario.net_down now false s ∅ in
  @load_cached Toy.runtime s key = Some [Sample.p0]
  ∧ run ≫= (λ out, out_results out !! Some "A") = Some []
  ∧ run ≫= (λ out, member_ids (out_store out) !! (key +:+ ":post_ids")) = Some []
  ∧ run ≫= (λ out, fetch_times (out_store out) !! (key +:+ ":last_fetch_time"))
    = Some now.
Proof.
  cbv zeta. split_and!; vm_compute; reflexivity.
Qed.

(** The fallback that the engine has for a failing adapter is taken when
    the adapter raises, as the Medium adapter does for a source without a
    url: the stored posts are returned, and the member-id list and the
    fetch time of the source are left as they are. *)
Lemma adapter_exception_falls_back :
  let pf := {| pf_type := Some "medium"; pf_url := None; pf_name := Some "M" |} in
  let s := Scenario.store_with pf (Some Scenario.t0) in
  let now := Scenario.t0 + 2 * Scenario.week in
  let run := @get_all_content Toy.runtime (Scenario.cfg_of [pf])
               Scenario.net_down now false s ∅ in
  let key := cache_key_of pf in
  run ≫= (λ out, out_results out !! Some "M") = Some [Sample.p0]
  ∧ run ≫= (λ out, member_ids (out_store out) !! (key +:+ ":post_ids"))
    = Some [post_id Sample.p0]
  ∧ run ≫= (λ out, fetch_times (out_store out) !! (key +:+ ":last_fetch_time"))
    = Some Scenario.t0.
Proof. cbv zeta. split_and!; vm_compute; reflexivity. Qed.

(** The cache duration being one week by default, a source fetched at
    [t0] is served from the store half a week later and fetched again two
    weeks later. *)
Lemma ttl_gating_example :
  let cfg := Scenario.cfg_of [Scenario.substack_a] in
  let s := Scenario.store_with Scenario.substack_a (Some Scenario.t0) in
  cache_duration_of cfg = Some Scenario.week
  ∧ (out_calls <$> @get_all_content Toy.runtime cfg Scenario.net_up
                     (Scenario.t0 + Scenario.week / 2) false s ∅) = Some []
  ∧ (out_calls <$> @get_all_content Toy.runtime cfg Scenario.net_up
                     (Scenario.t0 + 2 * Scenario.week) false s ∅)
    = Some [CallSubstack (Some "https://a.substack.com") 100 (Some "A")].
Proof. split_and!; vm_compute; reflexivity. Qed.

(** The largest number of minutes [timedelta] accepts is one minute less
    than a thousand million days, the smallest is minus 999999999 days. *)
Lemma timedelta_minutes_range :
  timedelta_minutes 1439999999999 = Some 86399999999940000000
  ∧ timedelta_minutes 1440000000000 = None
  ∧ timedelta_minutes (-1439999998560) = Some (-86399999913600000000)
  ∧ timedelta_minutes (-1439999998561) = None.
Proof. split_and!; vm_compute; reflexivity. Qed.

(** C2 as stated fails in three ways.  With a cache duration of a
    thousand million days, which [timedelta] refuses, the call raises
    before it looks at a source: a forced refresh calls no adapter.  A
    source of a type that has no adapter is due without an adapter being
    called for it.  And a source that is not due is rebuilt from the
    store, but the result holds under its name the posts fetched for a
    due source that carries the same name. *)
Lemma due_source_is_not_always_fetched :
  let s := Scenario.store_with Scenario.substack_a (Some Scenario.t0) in
  let now := Scenario.t0 + 1 in
  let shared := @get_all_content Toy.runtime
                  (Scenario.cfg_of [Scenario.substack_a; Scenario.medium_a])
                  Scenario.net_up now false s ∅ in
  (cache_duration_of (Scenario.cfg_long [Scenario.substack_a]) = None
   ∧ @get_all_content Toy.runtime (Scenario.cfg_long [Scenario.substack_a])
       Scenario.net_up now true s ∅ = None)
  ∧ (cache_duration_of (Scenario.cfg_of [Scenario.rss_x]) = Some Scenario.week
     ∧ due Scenario.week false now s Scenario.rss_x = true
     ∧ out_calls <$> @get_all_content Toy.runtime (Scenario.cfg_of [Scenario.rss_x])
                       Scenario.net_up now false s ∅ = Some [])
  ∧ (due Scenario.week false now s Scenario.substack_a = false
     ∧ @load_cached Toy.runtime s (cache_key_of Scenario.substack_a) = Some [Sample.p0]
     ∧ out_calls <$> shared
       = Some [CallMedium (Some "https://medium.com/@bob") 100 (Some "A")]
     ∧ map post_title <$> (shared ≫= λ out, out_results out !! name_of Scenario.substack_a)
       = Some ["Bob"]).
Proof. cbv zeta. split_and!; vm_compute; reflexivity. Qed.

Lemma refetch_exactly_when_due_witness :
  ∃ out,
    @get_all_content Toy.runtime
      (Scenario.cfg_of [Scenario.substack_a; Scenario.medium_b]) Scenario.net_up
      (Scenario.t0 + Scenario.week / 2) false
      (Scenario.store_with Scenario.substack_a (Some Scenario.t0)) ∅ = Some out
    ∧ out_calls out = [CallMedium (Some "https://medium.com/@bob") 100 (Some "B")]
    ∧ out_results out !! Some "A" = Some [Sample.p0].
Proof.
  assert (Hd : cache_duration_of
                 (Scenario.cfg_of [Scenario.substack_a; Scenario.medium_b])
               = Some Scenario.week) by (vm_compute; reflexivity).
  destruct (@refetch_exactly_when_due Toy.runtime toy_runtime_ok
              (Scenario.cfg_of [Scenario.substack_a; Scenario.medium_b])
              Scenario.net_up (Scenario.t0 + Scenario.week / 2) false
              (Scenario.store_with Scenario.substack_a (Some Scenario.t0)) ∅
              Scenario.week Hd) as (_ & _ & Hret & Hout).
  destruct (Hret (scenario_store_ok _ _)) as [out Hrun].
  exists out. split; [exact Hrun|].
  destruct (Hout out Hrun) as (Hcalls & _ & Hserved).
  split; [rewrite Hcalls; vm_compute; reflexivity|].
  destruct (Hserved Scenario.substack_a) as (posts & Hposts & Hres).
  - left. reflexivity.
  - vm_compute. reflexivity.
  - assert (Hp : posts = [Sample.p0]).
    { assert (Hl : @load_cached Toy.runtime
                     (Scenario.store_with Scenario.substack_a (Some Scenario.t0))
                     (cache_key_of Scenario.substack_a) = Some [Sample.p0])
        by (vm_compute; reflexivity).
      congruence. }
    rewrite <- Hp. apply Hres.
    intros pf' [<-|[<-|[]]] Hn; [reflexivity|]. vm_compute in Hn. discriminate Hn.
Defined.

(** C7 as stated fails: the store holds a post for a source of type
    ["rss"], which is due; the call returns no entry for that source. *)
Lemma unsupported_type_is_not_served :
  let s := Scenario.store_with Scenario.rss_x None in
  let run := @get_all_content Toy.runtime (Scenario.cfg_of [Scenario.rss_x])
               Scenario.net_up (Scenario.t0 + 2 * Scenario.week) false s ∅ in
  @load_cached Toy.runtime s (cache_key_of Scenario.rss_x) = Some [Sample.p0]
  ∧ (λ out, out_results out !! name_of Scenario.rss_x) <$> run = Some None.
Proof. cbv zeta. split; vm_compute; reflexivity. Qed.

Lemma unsupported_type_is_skipped_witness :
  @get_all_content Toy.runtime
    (Scenario.cfg_of [Scenario.substack_a; Scenario.rss_x; Scenario.medium_b])
    Scenario.net_up Scenario.t0 false (Scenario.store_with Scenario.rss_x None) ∅
  = @get_all_content Toy.runtime
      (with_platforms
         (Scenario.cfg_of [Scenario.substack_a; Scenario.rss_x; Scenario.medium_b])
         ([Scenario.substack_a] ++ [Scenario.medium_b]))
      Scenario.net_up Scenario.t0 false (Scenario.store_with Scenario.rss_x None) ∅.
Proof.
  refine (proj2 (@unsupported_type_is_skipped Toy.runtime
                   (Scenario.cfg_of [Scenario.substack_a; Scenario.rss_x; Scenario.medium_b])
                   Scenario.net_up Scenario.t0 false
                   (Scenario.store_with Scenario.rss_x None) ∅
                   [Scenario.substack_a] Scenario.rss_x [Scenario.medium_b] _ _ _ _)).
  - reflexivity.
  - vm_compute. discriminate.
  - vm_compute. discriminate.
  - intros cache_duration _. vm_compute. reflexivity.
Defined.

(** A forced refresh that raises.  The adapter of the second source
    raises and the record the fallback finds for it cannot be read, so
    the call is left by an exception in the second round, after the posts
    of the first source have been cached; a second call is left the same
    way. *)
Lemma interrupted_refresh :
  let cfg := Scenario.cfg_of [Scenario.substack_a; Scenario.medium_none] in
  let s := Scenario.store_torn in
  let s1 := @posts_cache_after Toy.runtime cfg Scenario.net_up Scenario.t0 true s in
  @get_all_content Toy.runtime cfg Scenario.net_up Scenario.t0 true s ∅ = None
  ∧ @get_all_content Toy.runtime cfg Scenario.net_up (Scenario.t0 + 1) true s1 ∅ = None
  ∧ member_ids s !! (cache_key_of Scenario.substack_a +:+ ":post_ids") = None
  ∧ member_ids s1 !! (cache_key_of Scenario.substack_a +:+ ":post_ids")
    = Some ["https://a.substack.com/p/1:One"; "https://a.substack.com/p/2:Two"].
Proof. cbv zeta. split_and!; vm_compute; reflexivity. Qed.

Lemma forced_refresh_twice_witness :
  let after2 cfg s :=
    let s1 := @posts_cache_after Toy.runtime cfg Scenario.net_up Scenario.t0 true s in
    let s2 := @posts_cache_after Toy.runtime cfg Scenario.net_up (Scenario.t0 + 1)
                true s1 in
    post_records s2 = post_records s1 ∧ member_ids s2 = member_ids s1 in
  after2 (Scenario.cfg_of [Scenario.substack_a; Scenario.medium_b])
    (Scenario.store_with Scenario.substack_a None)
  ∧ after2 (Scenario.cfg_of [Scenario.substack_a; Scenario.medium_none])
      Scenario.store_torn.
Proof.
  intros after2. split.
  - destruct (@forced_refresh_twice Toy.runtime toy_runtime_ok
                (Scenario.cfg_of [Scenario.substack_a; Scenario.medium_b])
                Scenario.net_up Scenario.t0 (Scenario.t0 + 1)
                (Scenario.store_with Scenario.substack_a None)) as (Hrec & Hids & _).
    split; [exact Hrec|exact Hids].
  - destruct (@forced_refresh_twice Toy.runtime toy_runtime_ok
                (Scenario.cfg_of [Scenario.substack_a; Scenario.medium_none])
                Scenario.net_up Scenario.t0 (Scenario.t0 + 1)
                Scenario.store_torn) as (Hrec & Hids & _).
    split; [exact Hrec|exact Hids].
Defined.
